(** * Loan chaincode: the ledger operations of [chaincode/loan_chaincode.go]

    The chaincode keeps one JSON document per loan in the Fabric world state
    and exposes four transactions: [ApplyForLoan], [ApproveLoan],
    [MakeRepayment] and [CheckLoanBalance].  Amounts are Go [float64]
    values; they are modelled by Rocq's primitive binary64 floats, whose
    operations are specified by [SpecFloat]. *)

From Stdlib Require Import ZArith NArith Bool Ascii String List Lia Floats.
From stdpp Require Import base option gmap strings.

Local Open Scope Z_scope.

(** ** Go's float64 *)
Module Float64.

(** Go's [x > y] on float64. *)
Definition gtb (x y : float) : bool := PrimFloat.ltb y x.

(** What [encoding/json] accepts: neither NaN nor an infinity. *)
Definition finite (x : float) : bool := PrimFloat.is_finite x.

(** Left-to-right float64 accumulation of a slice, from [0]. *)
Definition sum (xs : list float) : float :=
  fold_left PrimFloat.add xs 0%float.

(** The shape of a result that is not below zero (and is not [-0]). *)
Definition not_negative (x : spec_float) : Prop :=
  match x with
  | S754_zero s | S754_infinity s | S754_finite s _ _ => s = false
  | S754_nan => True
  end.

(** The float64 of a whole number [n]: [float64(n)] in Go. *)
Definition Z2SF (n : Z) : spec_float := binary_normalize prec emax n 0 false.

(** The valid float of a whole number [c] below [2^53]. *)
Definition canon (c : positive) : spec_float :=
  S754_finite false
    (Z.to_pos (Zpos c * 2 ^ (prec - Zpos (digits2_pos c))))
    (Zpos (digits2_pos c) - prec).

(** [whole x n]: the float [x] is the whole number [n], below [2^53]. *)
Definition whole (x : float) (n : Z) : Prop :=
  0 <= n < 2 ^ prec /\ Prim2SF x = Z2SF n.

(** The number that a finite float denotes, counted in units of
    [2^-1074], of which every finite float64 is a multiple. *)
Definition units (x : float) : option Z :=
  match Prim2SF x with
  | S754_zero _ => Some 0
  | S754_finite s m e => Some (cond_Zopp s (Zpos m) * 2 ^ (e - emin))
  | _ => None
  end.

(** The sum of the numbers that the floats of a slice denote. *)
Definition units_sum (xs : list float) : option Z :=
  foldr (fun x acc => n ← units x; a ← acc; Some (n + a)) (Some 0) xs.

(** [sf_at_most b r]: [r] is [+0], or finite, above zero and not above
    [b]. *)
Definition sf_at_most (b r : spec_float) : Prop :=
  match r with
  | S754_zero false => True
  | S754_finite false m e => SFleb (S754_finite false m e) b = true
  | _ => False
  end.

End Float64.

(** ** UTF-8, as [encoding/json] coerces strings to it

    Go strings are byte strings.  [json.Marshal] writes a string field as
    valid UTF-8: every byte that is not part of a valid encoding is
    written as U+FFFD. *)
Module UTF8.
Local Open Scope nat_scope.

(** [utf8.first] and [utf8.acceptRanges]: for a byte that leads an encoding
    of several bytes, the length of the encoding and the range that the
    second byte must lie in. *)
Definition first (x : N) : option (nat * N * N) :=
  if (x <? 0xC2)%N then None
  else if (x <=? 0xDF)%N then Some (2%nat, 0x80%N, 0xBF%N)
  else if (x =? 0xE0)%N then Some (3%nat, 0xA0%N, 0xBF%N)
  else if (x <=? 0xEC)%N then Some (3%nat, 0x80%N, 0xBF%N)
  else if (x =? 0xED)%N then Some (3%nat, 0x80%N, 0x9F%N)
  else if (x <=? 0xEF)%N then Some (3%nat, 0x80%N, 0xBF%N)
  else if (x =? 0xF0)%N then Some (4%nat, 0x90%N, 0xBF%N)
  else if (x <=? 0xF3)%N then Some (4%nat, 0x80%N, 0xBF%N)
  else if (x =? 0xF4)%N then Some (4%nat, 0x80%N, 0x8F%N)
  else None.

Definition between (lo hi : N) (c : ascii) : bool :=
  ((lo <=? N_of_ascii c) && (N_of_ascii c <=? hi))%N.

(** [utf8.DecodeRuneInString], as [appendString] of [encoding/json] uses
    it: the number of bytes of the encoding that [s] begins with, and [0]
    when [s] is empty or begins with a byte that is not the start of a
    valid encoding. *)
Definition rune_len (s : list ascii) : nat :=
  match s with
  | [] => 0%nat
  | c0 :: s1 =>
      if (N_of_ascii c0 <? 0x80)%N then 1%nat else
      match first (N_of_ascii c0), s1 with
      | Some (sz, lo, hi), c1 :: s2 =>
          if negb (between lo hi c1) then 0%nat else
          match sz, s2 with
          | 2%nat, _ => 2%nat
          | _, c2 :: s3 =>
              if negb (between 0x80 0xBF c2) then 0%nat else
              match sz, s3 with
              | 3%nat, _ => 3%nat
              | _, c3 :: _ => if between 0x80 0xBF c3 then 4%nat else 0%nat
              | _, [] => 0%nat
              end
          | _, [] => 0%nat
          end
      | _, _ => 0%nat
      end
  end.

(** U+FFFD, the replacement character, in UTF-8. *)
Definition replacement : list ascii :=
  [ascii_of_N 0xEF; ascii_of_N 0xBF; ascii_of_N 0xBD].

(** The bytes that [json.Marshal] writes for a string, once read back:
    every byte that does not belong to a valid encoding is replaced by
    U+FFFD; [pending] bytes of an encoding already accepted are copied. *)
Fixpoint coerce (pending : nat) (s : list ascii) : list ascii :=
  match s with
  | [] => []
  | c :: rest =>
      match pending with
      | S k => c :: coerce k rest
      | O =>
          match rune_len s with
          | O => replacement ++ coerce 0 rest
          | S k => c :: coerce k rest
          end
      end
  end.

Definition coerceUTF8 (s : string) : string :=
  string_of_list_ascii (coerce 0 (list_ascii_of_string s)).

End UTF8.

(** ** The loan document and its JSON encoding *)

(** [type Loan struct]; Go's [int] holds [TermMonths]. *)
Record Loan := mkLoan {
  LoanID : string;
  ApplicantName : string;
  LoanAmount : float;
  TermMonths : Z;
  InterestRate : float;
  Outstanding : float;
  Status : string;
  Repayments : list float
}.

Definition set_Status (status : string) (loan : Loan) : Loan :=
  mkLoan (LoanID loan) (ApplicantName loan) (LoanAmount loan) (TermMonths loan)
         (InterestRate loan) (Outstanding loan) status (Repayments loan).

Definition set_Outstanding (x : float) (loan : Loan) : Loan :=
  mkLoan (LoanID loan) (ApplicantName loan) (LoanAmount loan) (TermMonths loan)
         (InterestRate loan) x (Status loan) (Repayments loan).

Definition set_Repayments (xs : list float) (loan : Loan) : Loan :=
  mkLoan (LoanID loan) (ApplicantName loan) (LoanAmount loan) (TermMonths loan)
         (InterestRate loan) (Outstanding loan) (Status loan) xs.

(** The errors the chaincode returns, one constructor per [fmt.Errorf] of
    the source, plus those of [encoding/json] and of the stub. *)
Inductive error :=
  | ErrLoanIDEmpty           (* "loan ID cannot be empty" *)
  | ErrApplicantEmpty        (* "applicant name cannot be empty" *)
  | ErrAmountNotPositive     (* "loan amount must be positive" *)
  | ErrTermNotPositive       (* "loan term must be positive" *)
  | ErrRateNegative          (* "interest rate cannot be negative" *)
  | ErrReadState (cause : error) (* "failed to read from world state: %v" *)
  | ErrAlreadyExists (loanID : string) (* "loan ID %s already exists" *)
  | ErrInvalidStatus         (* "invalid status, must be APPROVED or REJECTED" *)
  | ErrNotExist (loanID : string) (* "loan %s does not exist" *)
  | ErrNotApplied            (* "loan must be in APPLIED status to be approved/rejected" *)
  | ErrRepaymentNotPositive  (* "repayment amount must be positive" *)
  | ErrNotApproved           (* "only APPROVED loans can accept repayments" *)
  | ErrExceedsOutstanding    (* "repayment amount exceeds outstanding balance" *)
  | ErrUnsupportedValue      (* json.Marshal: "json: unsupported value: ..." *)
  | ErrSyntax                (* json.Unmarshal on a malformed document *)
  | ErrStub.                 (* an error of the ledger stub itself *)

(** The error kinds of the specification, and the kind of each error. *)
Inductive ErrorKind :=
  | InvalidArgument | NotFound | AlreadyExists | InvalidState
  | ExceedsBalance | StoreUnavailable | Encoding.

Definition kind (e : error) : ErrorKind :=
  match e with
  | ErrLoanIDEmpty | ErrApplicantEmpty | ErrAmountNotPositive
  | ErrTermNotPositive | ErrRateNegative | ErrInvalidStatus
  | ErrRepaymentNotPositive => InvalidArgument
  | ErrNotExist _ => NotFound
  | ErrAlreadyExists _ => AlreadyExists
  | ErrNotApplied | ErrNotApproved => InvalidState
  | ErrExceedsOutstanding => ExceedsBalance
  | ErrReadState _ | ErrStub => StoreUnavailable
  | ErrUnsupportedValue | ErrSyntax => Encoding
  end.

Inductive result (A : Type) :=
  | Ok (a : A)
  | Err (e : error).
Arguments Ok {A} a.
Arguments Err {A} e.

(** [json.Marshal] writes a float64 as the shortest decimal that reads back
    as the same float64, and refuses NaN and the infinities. *)
Definition encodable (loan : Loan) : bool :=
  Float64.finite (LoanAmount loan) && Float64.finite (InterestRate loan)
  && Float64.finite (Outstanding loan)
  && forallb Float64.finite (Repayments loan).

(** [json.Marshal] writes the three strings coerced to valid UTF-8. *)
Definition coerced (loan : Loan) : Loan :=
  mkLoan (UTF8.coerceUTF8 (LoanID loan)) (UTF8.coerceUTF8 (ApplicantName loan))
         (LoanAmount loan) (TermMonths loan) (InterestRate loan)
         (Outstanding loan) (UTF8.coerceUTF8 (Status loan)) (Repayments loan).

(** The strings of a record are valid UTF-8: coercion leaves them as they
    are. *)
Definition text_ok (loan : Loan) : bool :=
  (UTF8.coerceUTF8 (LoanID loan) =? LoanID loan)%string
  && (UTF8.coerceUTF8 (ApplicantName loan) =? ApplicantName loan)%string
  && (UTF8.coerceUTF8 (Status loan) =? Status loan)%string.

(** A document of the world state: the [Loan] it decodes to, with finite
    amounts, as [json.Marshal] writes them, and strings that are valid
    UTF-8, as [json.Marshal] writes and [json.Unmarshal] reads them. *)
Record json := mkJSON {
  decoded : Loan;
  decoded_encodable : Is_true (encodable decoded);
  decoded_text : Is_true (text_ok decoded)
}.

(** [json.Marshal]: the document of the record with its strings coerced,
    or an error when an amount is NaN or an infinity.  Coerced strings are
    valid UTF-8 ([coerced_text_ok] below), so the second test never fails. *)
Definition Marshal (loan : Loan) : result json :=
  match decide (Is_true (encodable (coerced loan))),
        decide (Is_true (text_ok (coerced loan))) with
  | left He, left Ht => Ok (mkJSON (coerced loan) He Ht)
  | _, _ => Err ErrUnsupportedValue
  end.

Definition Unmarshal (doc : json) : result Loan := Ok (decoded doc).

(** ** The world state and the transaction monad

    The world state of the chaincode is a map from keys to documents.  The
    chaincode alone writes it, so every stored value is a document that
    [Marshal] produced.  Reading and writing it do not fail here. *)

Abbreviation ledger := (gmap string json).

(** A transaction reads and writes the ledger and returns a value or an
    error. *)
Definition tx (A : Type) : Type := ledger -> result A * ledger.

#[export] Instance tx_ret : MRet tx := fun A a w => (Ok a, w).

#[export] Instance tx_bind : MBind tx := fun A B f m w =>
  match m w with
  | (Ok a, w') => f a w'
  | (Err e, w') => (Err e, w')
  end.

Definition throw {A : Type} (e : error) : tx A := fun w => (Err e, w).

Definition lift {A : Type} (r : result A) : tx A := fun w => (r, w).

(** [if err != nil { return fmt.Errorf("...: %v", err) }] *)
Definition wrap {A : Type} (f : error -> error) (m : tx A) : tx A := fun w =>
  match m w with
  | (Ok a, w') => (Ok a, w')
  | (Err e, w') => (Err (f e), w')
  end.

(** [ctx.GetStub().GetState(key)]: the stored document, or [nil]. *)
Definition GetState (key : string) : tx (option json) :=
  fun w => (Ok (w !! key), w).

(** [ctx.GetStub().PutState(key, value)] *)
Definition PutState (key : string) (value : json) : tx unit :=
  fun w => (Ok tt, <[key := value]> w).

(** ** The transactions of [LoanContract] *)

Definition ApplyForLoan (loanID applicantName : string) (loanAmount : float)
    (termMonths : Z) (interestRate : float) : tx unit :=
  if (loanID =? "")%string then throw ErrLoanIDEmpty else
  if (applicantName =? "")%string then throw ErrApplicantEmpty else
  if (loanAmount <=? 0)%float then throw ErrAmountNotPositive else
  if termMonths <=? 0 then throw ErrTermNotPositive else
  if (interestRate <? 0)%float then throw ErrRateNegative else
  existing ← wrap ErrReadState (GetState loanID);
  match existing with
  | Some _ => throw (ErrAlreadyExists loanID)
  | None =>
      let loan := mkLoan loanID applicantName loanAmount termMonths
                         interestRate loanAmount "APPLIED" [] in
      loanJSON ← lift (Marshal loan);
      PutState loanID loanJSON
  end.

Definition ApproveLoan (loanID status : string) : tx unit :=
  if negb (status =? "APPROVED")%string && negb (status =? "REJECTED")%string
  then throw ErrInvalidStatus else
  loanJSON ← wrap ErrReadState (GetState loanID);
  match loanJSON with
  | None => throw (ErrNotExist loanID)
  | Some loanJSON =>
      loan ← lift (Unmarshal loanJSON);
      if negb (Status loan =? "APPLIED")%string then throw ErrNotApplied else
      let loan := set_Status status loan in
      updatedLoanJSON ← lift (Marshal loan);
      PutState loanID updatedLoanJSON
  end.

Definition MakeRepayment (loanID : string) (repaymentAmount : float) : tx unit :=
  if (repaymentAmount <=? 0)%float then throw ErrRepaymentNotPositive else
  loanJSON ← wrap ErrReadState (GetState loanID);
  match loanJSON with
  | None => throw (ErrNotExist loanID)
  | Some loanJSON =>
      loan ← lift (Unmarshal loanJSON);
      if negb (Status loan =? "APPROVED")%string then throw ErrNotApproved else
      if Float64.gtb repaymentAmount (Outstanding loan)
      then throw ErrExceedsOutstanding else
      let loan := set_Outstanding (Outstanding loan - repaymentAmount)%float loan in
      let loan := set_Repayments (Repayments loan ++ [repaymentAmount]) loan in
      let loan := if (Outstanding loan <=? 0)%float
                  then set_Status "PAID" loan else loan in
      updatedLoanJSON ← lift (Marshal loan);
      PutState loanID updatedLoanJSON
  end.

Definition CheckLoanBalance (loanID : string) : tx Loan :=
  loanJSON ← wrap ErrReadState (GetState loanID);
  match loanJSON with
  | None => throw (ErrNotExist loanID)
  | Some loanJSON => lift (Unmarshal loanJSON)
  end.

(** The record that [MakeRepayment] builds from the stored one once its
    checks have passed (lines 148 to 155 of the source). *)
Definition repaid (repaymentAmount : float) (loan : Loan) : Loan :=
  let loan := set_Outstanding (Outstanding loan - repaymentAmount)%float loan in
  let loan := set_Repayments (Repayments loan ++ [repaymentAmount]) loan in
  if (Outstanding loan <=? 0)%float then set_Status "PAID" loan else loan.

(** ** Histories of the ledger *)

(** An invocation of the contract. *)
Inductive call :=
  | CallApplyForLoan (loanID applicantName : string) (loanAmount : float)
                     (termMonths : Z) (interestRate : float)
  | CallApproveLoan (loanID status : string)
  | CallMakeRepayment (loanID : string) (repaymentAmount : float)
  | CallCheckLoanBalance (loanID : string).

(** The outcome of an invocation: its error, if any, and the ledger it
    leaves. *)
Definition outcome {A : Type} (r : result A * ledger) : option error * ledger :=
  (match r.1 with Ok _ => None | Err e => Some e end, r.2).

Definition invoke (c : call) (w : ledger) : option error * ledger :=
  match c with
  | CallApplyForLoan loanID applicantName loanAmount termMonths interestRate =>
      outcome (ApplyForLoan loanID applicantName loanAmount termMonths interestRate w)
  | CallApproveLoan loanID status => outcome (ApproveLoan loanID status w)
  | CallMakeRepayment loanID amount => outcome (MakeRepayment loanID amount w)
  | CallCheckLoanBalance loanID => outcome (CheckLoanBalance loanID w)
  end.

(** The ledgers that a sequence of invocations, each of them [allowed],
    builds from the empty one. *)
Inductive history (allowed : call -> Prop) : ledger -> Prop :=
  | history_empty : history allowed ∅
  | history_invoke (c : call) (w : ledger) :
      history allowed w -> allowed c -> history allowed (invoke c w).2.

(** The ledgers that any sequence of invocations builds. *)
Definition reachable : ledger -> Prop := history (fun _ => True).

(** The lifecycle of a record: PAID with nothing outstanding, or in one of
    the three other states with a balance that is not [<= 0]. *)
Definition lifecycle (loan : Loan) : Prop :=
  (Status loan = "PAID" /\ Outstanding loan = 0%float) \/
  ((Status loan = "APPLIED" \/ Status loan = "APPROVED" \/
    Status loan = "REJECTED") /\ (Outstanding loan <=? 0)%float = false).

(** The ledger after a sequence of invocations, oldest first. *)
Definition run (cs : list call) (w : ledger) : ledger :=
  fold_left (fun w c => (invoke c w).2) cs w.

(** The errors of a sequence of invocations, [None] for an accepted one. *)
Fixpoint errors (cs : list call) (w : ledger) : list (option error) :=
  match cs with
  | [] => []
  | c :: cs => (invoke c w).1 :: errors cs (invoke c w).2
  end.

(** The balance equation of a record, [sum(repayments) + outstanding ==
    principal], as float64 arithmetic evaluates it. *)
Definition balanced (loan : Loan) : bool :=
  (Float64.sum (Repayments loan) + Outstanding loan =? LoanAmount loan)%float.

(** The same equation on the numbers that the floats denote, without any
    rounding; [None] when an amount is not finite. *)
Definition balanced_exactly (loan : Loan) : option bool :=
  s ← Float64.units_sum (Repayments loan);
  o ← Float64.units (Outstanding loan);
  p ← Float64.units (LoanAmount loan);
  Some (s + o =? p).

(** Invocations whose principal and repayment amounts are whole numbers
    below [2^53]. *)
Definition whole_amounts (c : call) : Prop :=
  match c with
  | CallApplyForLoan _ _ loanAmount _ _ => exists n, Float64.whole loanAmount n
  | CallMakeRepayment _ amount => exists n, Float64.whole amount n
  | _ => True
  end.

(** A record all of whose amounts are whole numbers that add up. *)
Definition whole_record (loan : Loan) : Prop :=
  exists (principal outstanding : Z) (repayments : list Z),
    Float64.whole (LoanAmount loan) principal /\
    Float64.whole (Outstanding loan) outstanding /\
    Forall2 Float64.whole (Repayments loan) repayments /\
    fold_right Z.add 0 repayments + outstanding = principal.

(** The key that an invocation reads and, if accepted, writes. *)
Definition call_key (c : call) : string :=
  match c with
  | CallApplyForLoan loanID _ _ _ _ => loanID
  | CallApproveLoan loanID _ => loanID
  | CallMakeRepayment loanID _ => loanID
  | CallCheckLoanBalance loanID => loanID
  end.

(** What one invocation can make of a stored record: nothing, the update
    of [ApproveLoan] on an APPLIED record, or the update of [MakeRepayment]
    on an APPROVED record when its checks pass and the result encodes. *)
Inductive evolves (old : Loan) : Loan -> Prop :=
  | evolves_same : evolves old old
  | evolves_decided (status : string) :
      Status old = "APPLIED" ->
      status = "APPROVED" \/ status = "REJECTED" ->
      evolves old (set_Status status old)
  | evolves_repaid (amount : float) :
      Status old = "APPROVED" ->
      (amount <=? 0)%float = false ->
      Float64.gtb amount (Outstanding old) = false ->
      encodable (repaid amount old) = true ->
      evolves old (repaid amount old).

(** The fields of a record that [ApplyForLoan] checked, for the key it is
    stored under. *)
Definition checked_fields (key : string) (loan : Loan) : Prop :=
  LoanID loan = UTF8.coerceUTF8 key /\ key <> ""%string /\
  ApplicantName loan <> ""%string /\
  (0 <? LoanAmount loan)%float = true /\ (0 < TermMonths loan)%Z /\
  (0 <=? InterestRate loan)%float = true.

(** ** Sample documents and histories

    The loan of the client program's scenario, as stored after
    [ApplyForLoan] and after an approval; the scenario run to the end; and
    a loan of 0.9 with one repayment of 0.2. *)

Definition applied_L1 : json :=
  mkJSON (mkLoan "L1" "Jane Doe" 5000 12 5.5 5000 "APPLIED" []) I I.

Definition approved_L1 : json :=
  mkJSON (mkLoan "L1" "Jane Doe" 5000 12 5.5 5000 "APPROVED" []) I I.

Definition paid_L1 : json :=
  mkJSON (mkLoan "L1" "Jane Doe" 5000 12 5.5 0 "PAID" [2000%float; 3000%float]) I I.

Definition ledger_applied : ledger := {[ "L1"%string := applied_L1 ]}.

Definition ledger_approved : ledger := {[ "L1"%string := approved_L1 ]}.

Definition scenario_paid : list call :=
  [CallApplyForLoan "L1" "Jane Doe" 5000 12 5.5;
   CallApproveLoan "L1" "APPROVED";
   CallMakeRepayment "L1" 2000;
   CallMakeRepayment "L1" 3000].

(** A key whose first byte, [0xFF], is not valid UTF-8. *)
Definition key_FF : string := String (ascii_of_N 0xFF) "L1".

(** A loan of [10^16], from which a repayment of 1 is taken. *)
Definition scenario_absorbed : list call :=
  [CallApplyForLoan "L1" "Jane Doe" 10000000000000000 12 5.5;
   CallApproveLoan "L1" "APPROVED";
   CallMakeRepayment "L1" 1].

(** [0x1.ccccccccccccdp-1] is the float64 of 0.9 and
    [0x1.999999999999ap-3] that of 0.2. *)
Definition scenario_rounded : list call :=
  [CallApplyForLoan "L1" "Jane Doe" 0x1.ccccccccccccdp-1 12 5.5;
   CallApproveLoan "L1" "APPROVED";
   CallMakeRepayment "L1" 0x1.999999999999ap-3].

(** ** Facts about the coercion to UTF-8 *)
Module UTF8Facts.
Import UTF8.
Local Open Scope nat_scope.

Lemma rune_len_le (s : list ascii) : rune_len s <= length s.
Proof.
  destruct s as [| c0 [| c1 [| c2 [| c3 s]]]]; cbn [rune_len length]; try lia.
  all: destruct (_ <? _)%N; try lia.
  all: destruct (first _) as [[[sz lo] hi] |]; try lia.
  all: destruct (negb _); try lia.
  all: destruct sz as [| [| [| [| sz]]]]; try lia.
  all: repeat (match goal with |- context [if ?b then _ else _] => destruct b end); lia.
Qed.

Lemma rune_len_prefix (s t : list ascii) (k : nat) :
  rune_len s = S k -> rune_len (take (S k) s ++ t) = S k.
Proof.
  destruct s as [| c0 [| c1 [| c2 [| c3 s]]]]; cbn [rune_len]; try discriminate.
  all: destruct (N_of_ascii c0 <? 0x80)%N eqn:E0;
         [intros [= <-]; cbn; rewrite E0; reflexivity |].
  all: destruct (first (N_of_ascii c0)) as [[[sz lo] hi] |] eqn:E1; try discriminate.
  all: destruct (negb (between lo hi c1)) eqn:E2; try discriminate.
  all: destruct sz as [| [| [| [| [| sz]]]]];
         try (intros [= <-]; cbn; rewrite E0, E1, E2; reflexivity); try discriminate.
  all: try destruct (negb (between 128 191 c2)) eqn:E3; try discriminate.
  all: try (intros [= <-]; cbn; rewrite E0, E1, E2, ?E3; reflexivity).
  all: try destruct (between 128 191 c3) eqn:E4; try discriminate.
  all: try (intros [= <-]; cbn; rewrite E0, E1, E2, ?E3, ?E4; reflexivity).
Qed.

Lemma coerce_pending (k : nat) (s : list ascii) :
  k <= length s -> coerce k s = take k s ++ coerce 0 (drop k s).
Proof.
  revert k. induction s as [| c s IH]; intros k Hk.
  - destruct k; [reflexivity | cbn in Hk; lia].
  - destruct k as [| k]; [reflexivity |].
    cbn [coerce take drop app]. rewrite IH by (cbn in Hk; lia). reflexivity.
Qed.

(** One step of [coerce]: a replacement for an invalid byte, or a valid
    encoding copied whole. *)
Lemma coerce_step (c : ascii) (s : list ascii) :
  coerce 0 (c :: s) =
  match rune_len (c :: s) with
  | O => replacement ++ coerce 0 s
  | S k => take (S k) (c :: s) ++ coerce 0 (drop (S k) (c :: s))
  end.
Proof.
  cbn [coerce]. pose proof (rune_len_le (c :: s)) as Hle.
  destruct (rune_len (c :: s)) as [| k]; [reflexivity |].
  cbn [take drop app]. rewrite coerce_pending by (cbn in Hle; lia). reflexivity.
Qed.

Lemma coerce_replacement (t : list ascii) :
  coerce 0 (replacement ++ t) = replacement ++ coerce 0 t.
Proof. reflexivity. Qed.

Lemma coerce_rune (s t : list ascii) (k : nat) :
  rune_len s = S k ->
  coerce 0 (take (S k) s ++ t) = take (S k) s ++ coerce 0 t.
Proof.
  intros Hlen. pose proof (rune_len_le s) as Hle. rewrite Hlen in Hle.
  pose proof (rune_len_prefix s t k Hlen) as Hp.
  destruct s as [| c s]; [discriminate |].
  change (take (S k) (c :: s) ++ t) with (c :: (take k s ++ t)) in *.
  rewrite coerce_step, Hp.
  change (take (S k) (c :: take k s ++ t)) with (c :: take k (take k s ++ t)).
  change (drop (S k) (c :: take k s ++ t)) with (drop k (take k s ++ t)).
  assert (length (take k s) = k) as Hk by (rewrite length_take; cbn in Hle; lia).
  rewrite take_app_length' by (symmetry; exact Hk).
  rewrite drop_app_length' by (symmetry; exact Hk).
  reflexivity.
Qed.

Lemma coerce_idempotent (s : list ascii) : coerce 0 (coerce 0 s) = coerce 0 s.
Proof.
  remember (length s) as n eqn:Hn. revert s Hn.
  induction n as [n IH] using lt_wf_ind. intros s ->.
  destruct s as [| c s]; [reflexivity |].
  rewrite coerce_step. pose proof (rune_len_le (c :: s)) as Hle.
  destruct (rune_len (c :: s)) as [| k] eqn:Hlen.
  - rewrite coerce_replacement. f_equal. apply (IH (length s)); [cbn; lia | reflexivity].
  - rewrite (coerce_rune _ _ _ Hlen). f_equal.
    apply (IH (length (drop (S k) (c :: s)))); [| reflexivity].
    rewrite length_drop. cbn. lia.
Qed.

Lemma coerceUTF8_idempotent (s : string) : coerceUTF8 (coerceUTF8 s) = coerceUTF8 s.
Proof.
  unfold coerceUTF8. rewrite list_ascii_of_string_of_list_ascii, coerce_idempotent.
  reflexivity.
Qed.

(** Coercion leaves ASCII text as it is. *)
Lemma coerce_ascii (s : list ascii) :
  Forall (fun c => (N_of_ascii c < 0x80)%N) s -> coerce 0 s = s.
Proof.
  induction 1 as [| c s Hc _ IH]; [reflexivity |].
  apply N.ltb_lt in Hc. cbn [coerce rune_len]. rewrite Hc, IH. reflexivity.
Qed.

Lemma coerceUTF8_ascii (s : string) :
  Forall (fun c => (N_of_ascii c < 0x80)%N) (list_ascii_of_string s) ->
  coerceUTF8 s = s.
Proof.
  intros H. unfold coerceUTF8. rewrite (coerce_ascii _ H).
  apply string_of_list_ascii_of_string.
Qed.

(** Coercion does not empty a string. *)
Lemma coerceUTF8_empty (s : string) : coerceUTF8 s = ""%string -> s = ""%string.
Proof.
  destruct s as [| c s]; [reflexivity |].
  unfold coerceUTF8. cbn [list_ascii_of_string coerce].
  destruct (rune_len _); discriminate.
Qed.

End UTF8Facts.

(** ** Binary64 facts used by the chaincode

    The comparisons and the subtraction of [MakeRepayment] are IEEE 754
    operations.  The lemmas below are proved on the [spec_float] view of a
    float ([Prim2SF]). *)
Module Float64Facts.
Import Float64.

Lemma digits2_pos_bounds (m : positive) :
  2 ^ (Zpos (digits2_pos m) - 1) <= Zpos m < 2 ^ Zpos (digits2_pos m).
Proof.
  induction m as [m IH | m IH |]; cbn [digits2_pos].
  - rewrite Pos2Z.inj_succ, Z.pow_succ_r by lia.
    replace (Z.succ (Zpos (digits2_pos m)) - 1) with (Z.succ (Zpos (digits2_pos m) - 1)) by lia.
    rewrite Z.pow_succ_r by lia. lia.
  - rewrite Pos2Z.inj_succ, Z.pow_succ_r by lia.
    replace (Z.succ (Zpos (digits2_pos m)) - 1) with (Z.succ (Zpos (digits2_pos m) - 1)) by lia.
    rewrite Z.pow_succ_r by lia. lia.
  - cbn. lia.
Qed.

Lemma iter_xO_pow (d m : positive) :
  Zpos (Pos.iter xO m d) = Zpos m * 2 ^ Zpos d.
Proof.
  induction d as [| d IH] using Pos.peano_ind.
  - cbn. lia.
  - rewrite Pos.iter_succ, Pos2Z.inj_succ, Z.pow_succ_r by lia.
    rewrite Pos2Z.inj_xO, IH. lia.
Qed.

Lemma shl_align_value (m : positive) (e e' : Z) :
  e' <= e ->
  Zpos (fst (shl_align m e e')) = Zpos m * 2 ^ (e - e').
Proof.
  intros Hle. unfold shl_align.
  destruct (e' - e) as [| d | d] eqn:Hd; cbn [fst]; try lia.
  - replace (e - e') with 0 by lia. cbn. lia.
  - rewrite iter_xO_pow. f_equal. f_equal. lia.
Qed.

Lemma canonical_bounds (m : positive) (e : Z) :
  canonical_mantissa prec emax m e = true ->
  emin <= e /\ Zpos (digits2_pos m) <= prec /\
  (emin < e -> Zpos (digits2_pos m) = prec).
Proof.
  unfold canonical_mantissa, fexp. intros H%Z.eqb_eq. lia.
Qed.

Lemma binary_round_aux_sign (mx ex : Z) (lx : location) :
  not_negative (binary_round_aux prec emax false mx ex lx).
Proof.
  unfold binary_round_aux.
  destruct (shr_fexp prec emax mx ex lx) as [mrs' e'].
  destruct (shr_fexp prec emax _ e' loc_Exact) as [mrs'' e''].
  destruct (shr_m mrs''); [reflexivity | | exact I].
  destruct (e'' <=? emax - prec); reflexivity.
Qed.

Lemma binary_normalize_sign (m e : Z) :
  0 <= m -> not_negative (binary_normalize prec emax m e false).
Proof.
  intros Hm. destruct m as [| p | p]; [reflexivity | | lia].
  unfold binary_normalize, binary_round.
  destruct (shl_align p e _) as [mz ez]. apply binary_round_aux_sign.
Qed.

(** Two valid positive finite floats compare like the numbers they
    denote: when [y] is not below [x], aligning both mantissas on the
    smaller exponent keeps that of [y] the larger one. *)
Lemma aligned_mantissas (mx my : positive) (ex ey : Z) :
  bounded prec emax mx ex = true ->
  bounded prec emax my ey = true ->
  SFltb (S754_finite false my ey) (S754_finite false mx ex) = false ->
  Zpos (fst (shl_align mx ex (Z.min ey ex))) <=
  Zpos (fst (shl_align my ey (Z.min ey ex))).
Proof.
  unfold bounded. intros [Hx _]%andb_prop [Hy _]%andb_prop Hlt.
  apply canonical_bounds in Hx as (Hxe & Hxd & _).
  apply canonical_bounds in Hy as (Hye & Hyd & Hyn).
  unfold SFltb, SFcompare in Hlt.
  destruct (Z.compare_spec ey ex) as [Heq | Hlt' | Hgt]; [| discriminate |].
  - subst ey. rewrite Z.min_id, !shl_align_value by lia.
    rewrite Z.sub_diag. cbn [Z.pow].
    change (Pos.compare_cont Eq my mx) with (Pos.compare my mx) in Hlt.
    destruct (Pos.compare_spec my mx); try discriminate; subst; lia.
  - rewrite Z.min_r, !shl_align_value by lia.
    rewrite Z.sub_diag. cbn [Z.pow].
    specialize (Hyn ltac:(lia)).
    pose proof (digits2_pos_bounds mx) as [_ Hmx].
    pose proof (digits2_pos_bounds my) as [Hmy _].
    rewrite Hyn in Hmy.
    assert (Zpos mx < 2 ^ prec).
    { eapply Z.lt_le_trans; [exact Hmx |]. apply Z.pow_le_mono_r; lia. }
    assert (2 ^ 1 <= 2 ^ (ey - ex)) by (apply Z.pow_le_mono_r; lia).
    change (2 ^ (prec - 1)) with 4503599627370496 in Hmy.
    change (2 ^ prec) with 9007199254740992 in *.
    change (2 ^ 1) with 2 in *. nia.
Qed.

Lemma sf_le_zero_eq (x : spec_float) :
  not_negative x ->
  SFleb x (S754_zero false) = true -> x = S754_zero false.
Proof.
  destruct x as [s | s | | s m e]; cbn; intros Hs; try subst s;
    auto; discriminate.
Qed.

(** The subtraction of [MakeRepayment] on the [spec_float] view: an
    amount above zero, taken from a balance that it does not exceed,
    leaves a balance that is zero as soon as it is not above zero. *)
Lemma SFsub_le_zero_eq (a b : spec_float) :
  valid_binary a = true -> valid_binary b = true ->
  SFleb a (S754_zero false) = false ->
  SFltb b a = false ->
  SFleb (SF64sub b a) (S754_zero false) = true ->
  SF64sub b a = S754_zero false.
Proof.
  intros Ha Hb Hpos Hnlt. apply sf_le_zero_eq.
  destruct a as [sa | sa | | sa ma ea], b as [sb | sb | | sb mb eb];
    try destruct sa; try destruct sb; try discriminate; try exact I;
    try reflexivity.
  unfold SF64sub, SFsub. apply binary_normalize_sign.
  cbn [cond_Zopp]. cbn [valid_binary] in Ha, Hb.
  pose proof (aligned_mantissas ma mb ea eb Ha Hb Hnlt). lia.
Qed.

Lemma eqb_leb (x y : float) :
  PrimFloat.eqb x y = true -> PrimFloat.leb x y = true.
Proof.
  rewrite FloatAxioms.eqb_spec, FloatAxioms.leb_spec. unfold SFeqb, SFleb.
  destruct (SFcompare _ _) as [[| |] |]; auto.
Qed.

Lemma sub_le_zero_eq (a b : float) :
  PrimFloat.leb a 0%float = false ->
  gtb a b = false ->
  PrimFloat.leb (b - a) 0%float = true ->
  (b - a)%float = 0%float.
Proof.
  unfold gtb. intros Ha Hab Hle. apply Prim2SF_inj. revert Ha Hab Hle.
  rewrite !FloatAxioms.leb_spec, FloatAxioms.ltb_spec, sub_spec.
  change (Prim2SF 0%float) with (S754_zero false).
  apply SFsub_le_zero_eq; apply Prim2SF_valid.
Qed.

Lemma is_finite_not_nan (x : float) :
  finite x = true -> Prim2SF x <> S754_nan.
Proof.
  unfold finite, PrimFloat.is_finite, PrimFloat.is_nan.
  rewrite FloatAxioms.eqb_spec. intros H E. rewrite E in H. discriminate.
Qed.

(** A finite float that fails Go's [x <= 0] is above zero. *)
Lemma not_le_zero_gt (x : float) :
  finite x = true ->
  PrimFloat.leb x 0%float = false ->
  PrimFloat.ltb 0%float x = true.
Proof.
  intros Hf%is_finite_not_nan. revert Hf.
  rewrite FloatAxioms.leb_spec, FloatAxioms.ltb_spec.
  change (Prim2SF 0%float) with (S754_zero false).
  destruct (Prim2SF x) as [s | [|] | | [|] m e]; cbn; congruence.
Qed.

(** Above zero in Go's sense entails that [x <= 0] and [x == 0] fail. *)
Lemma gt_zero_not_le (x : float) :
  PrimFloat.ltb 0%float x = true ->
  PrimFloat.leb x 0%float = false.
Proof.
  rewrite FloatAxioms.leb_spec, FloatAxioms.ltb_spec.
  change (Prim2SF 0%float) with (S754_zero false).
  destruct (Prim2SF x) as [s | [|] | | [|] m e]; cbn; congruence.
Qed.

(** Zero or above in Go's sense entails that [x < 0] fails. *)
Lemma ge_zero_not_lt (x : float) :
  PrimFloat.leb 0%float x = true ->
  PrimFloat.ltb x 0%float = false.
Proof.
  rewrite FloatAxioms.leb_spec, FloatAxioms.ltb_spec.
  change (Prim2SF 0%float) with (S754_zero false).
  destruct (Prim2SF x) as [s | [|] | | [|] m e]; cbn; congruence.
Qed.

Lemma SFcompare_antisym (x y : spec_float) :
  SFcompare y x = CompOpp <$> SFcompare x y.
Proof.
  destruct x as [sx | sx | | sx mx ex], y as [sy | sy | | sy my ey];
    try destruct sx; try destruct sy; try reflexivity; cbn;
    rewrite (Z.compare_antisym ex ey);
    change (Pos.compare_cont Eq my mx) with (Pos.compare my mx);
    change (Pos.compare_cont Eq mx my) with (Pos.compare mx my);
    rewrite (Pos.compare_antisym mx my);
    destruct (ex ?= ey), (mx ?= my)%positive; reflexivity.
Qed.

(** Go's [x <= y] entails that [x > y] fails. *)
Lemma le_not_gt (x y : float) :
  PrimFloat.leb x y = true -> gtb x y = false.
Proof.
  unfold gtb. rewrite FloatAxioms.leb_spec, FloatAxioms.ltb_spec.
  unfold SFleb, SFltb. rewrite (SFcompare_antisym (Prim2SF x) (Prim2SF y)).
  destruct (SFcompare _ _) as [[| |] |]; cbn; congruence.
Qed.

Lemma finite_eqb_refl (x : float) :
  finite x = true -> PrimFloat.eqb x x = true.
Proof.
  unfold finite, PrimFloat.is_finite, PrimFloat.is_nan.
  destruct (PrimFloat.eqb x x); [reflexivity | discriminate].
Qed.

Lemma iter_pos_iter {A : Type} (f : A -> A) (p : positive) (x : A) :
  SpecFloat.iter_pos f p x = Pos.iter f x p.
Proof.
  revert x. induction p as [p IH | p IH |]; intros x; cbn.
  - rewrite !IH, !Pos.iter_swap. reflexivity.
  - rewrite !IH. reflexivity.
  - reflexivity.
Qed.

Lemma shr_1_double (m : Z) :
  0 <= m ->
  shr_1 (Build_shr_record (2 * m) false false) = Build_shr_record m false false.
Proof. destruct m as [| q | q]; [reflexivity | reflexivity | lia]. Qed.

Lemma iter_shr_1_exact (p : positive) (m : Z) :
  0 <= m ->
  SpecFloat.iter_pos shr_1 p (Build_shr_record (m * 2 ^ Zpos p) false false)
  = Build_shr_record m false false.
Proof.
  rewrite iter_pos_iter. revert m.
  induction p as [| p IH] using Pos.peano_ind; intros m Hm.
  - cbn [Pos.iter]. rewrite <- (shr_1_double m Hm). do 2 f_equal. lia.
  - rewrite Pos.iter_succ, <- Pos.iter_swap.
    rewrite Pos2Z.inj_succ, Z.pow_succ_r by lia.
    replace (m * (2 * 2 ^ Zpos p)) with (2 * (m * 2 ^ Zpos p)) by lia.
    rewrite shr_1_double by (pose proof (Z.pow_pos_nonneg 2 (Zpos p)); nia).
    apply IH, Hm.
Qed.

Lemma digits2_pos_unique (m : positive) (d : Z) :
  2 ^ (d - 1) <= Zpos m < 2 ^ d -> Zpos (digits2_pos m) = d.
Proof.
  intros [Hlo Hhi]. pose proof (digits2_pos_bounds m) as [Hlo' Hhi'].
  assert (0 < d).
  { destruct (Z.lt_ge_cases 0 d) as [? | Hd]; [assumption |].
    destruct d; try lia. rewrite Z.pow_neg_r in Hhi; lia. }
  destruct (Z.lt_trichotomy (Zpos (digits2_pos m)) d) as [Hlt | [Heq | Hgt]];
    [| exact Heq |]; exfalso.
  - assert (2 ^ Zpos (digits2_pos m) <= 2 ^ (d - 1)) by (apply Z.pow_le_mono_r; lia).
    lia.
  - assert (2 ^ d <= 2 ^ (Zpos (digits2_pos m) - 1)) by (apply Z.pow_le_mono_r; lia).
    lia.
Qed.

Lemma digits2_pos_shift (m c : positive) (k : Z) :
  0 <= k -> Zpos m = Zpos c * 2 ^ k ->
  Zpos (digits2_pos m) = Zpos (digits2_pos c) + k.
Proof.
  intros Hk Hm. apply digits2_pos_unique. rewrite Hm.
  pose proof (digits2_pos_bounds c) as [Hlo Hhi].
  replace (Zpos (digits2_pos c) + k - 1) with (Zpos (digits2_pos c) - 1 + k) by lia.
  rewrite !Z.pow_add_r by lia.
  pose proof (Z.pow_pos_nonneg 2 k). nia.
Qed.

(** Rounding a mantissa that carries [p] more zero bits than a valid one
    gives the valid float back. *)
Lemma binary_round_aux_exact (m m1 : positive) (e1 p : Z) :
  0 <= p -> Zpos m = Zpos m1 * 2 ^ p ->
  bounded prec emax m1 e1 = true ->
  binary_round_aux prec emax false (Zpos m) (e1 - p) loc_Exact
  = S754_finite false m1 e1.
Proof.
  intros Hp Hm [Hc He]%andb_prop.
  unfold canonical_mantissa in Hc. apply Z.eqb_eq in Hc.
  assert (shr_fexp prec emax (Zpos m) (e1 - p) loc_Exact
          = (Build_shr_record (Zpos m1) false false, e1)) as Hshr.
  { unfold shr_fexp. cbn [Zdigits2 shr_record_of_loc].
    rewrite (digits2_pos_shift m m1 p Hp Hm).
    replace (Zpos (digits2_pos m1) + p + (e1 - p)) with (Zpos (digits2_pos m1) + e1) by lia.
    rewrite Hc. replace (e1 - (e1 - p)) with p by lia.
    unfold shr. destruct p as [| q | q]; [| | lia].
    - f_equal; [| lia]. f_equal. rewrite Hm. cbn. lia.
    - rewrite Hm, iter_shr_1_exact by lia. f_equal. lia. }
  unfold binary_round_aux. rewrite Hshr. cbn [shr_m loc_of_shr_record round_nearest_even].
  unfold shr_fexp. cbn [Zdigits2 shr_record_of_loc]. rewrite Hc, Z.sub_diag.
  cbn [shr shr_m]. rewrite He. reflexivity.
Qed.

Lemma digits2_pos_le_prec (c : positive) :
  Zpos c < 2 ^ prec -> Zpos (digits2_pos c) <= prec.
Proof.
  intros Hc. pose proof (digits2_pos_bounds c) as [Hlo _].
  destruct (Z.le_gt_cases (Zpos (digits2_pos c)) prec) as [? | Hgt]; [assumption |].
  assert (2 ^ prec <= 2 ^ (Zpos (digits2_pos c) - 1)) by (apply Z.pow_le_mono_r; lia).
  lia.
Qed.

Lemma canon_mantissa (c : positive) :
  Zpos c < 2 ^ prec ->
  Zpos (Z.to_pos (Zpos c * 2 ^ (prec - Zpos (digits2_pos c))))
  = Zpos c * 2 ^ (prec - Zpos (digits2_pos c)).
Proof.
  intros Hc%digits2_pos_le_prec. apply Z2Pos.id.
  pose proof (Z.pow_pos_nonneg 2 (prec - Zpos (digits2_pos c))). nia.
Qed.

Lemma canon_bounded (c : positive) :
  Zpos c < 2 ^ prec ->
  bounded prec emax
    (Z.to_pos (Zpos c * 2 ^ (prec - Zpos (digits2_pos c))))
    (Zpos (digits2_pos c) - prec) = true.
Proof.
  intros Hc. pose proof (digits2_pos_le_prec c Hc) as Hd.
  unfold bounded, canonical_mantissa, fexp.
  rewrite (digits2_pos_shift _ c (prec - Zpos (digits2_pos c)))
    by (try apply canon_mantissa; lia).
  apply andb_true_intro. split; [apply Z.eqb_eq | apply Z.leb_le];
    unfold SpecFloat.emin, prec, emax in *; lia.
Qed.

Lemma binary_round_whole (m c : positive) (k : Z) :
  0 <= k -> Zpos m = Zpos c * 2 ^ k -> Zpos c < 2 ^ prec ->
  binary_round prec emax false m (- k) = canon c.
Proof.
  intros Hk Hm Hc. pose proof (digits2_pos_le_prec c Hc) as Hd.
  pose proof (canon_mantissa c Hc) as Hm1.
  unfold binary_round. rewrite (digits2_pos_shift m c k Hk Hm).
  replace (fexp prec emax (Zpos (digits2_pos c) + k + - k))
    with (Zpos (digits2_pos c) - prec)
    by (unfold fexp, SpecFloat.emin, prec, emax in *; lia).
  unfold shl_align.
  destruct (Zpos (digits2_pos c) - prec - - k) as [| q | q] eqn:Hq.
  - replace (- k) with (Zpos (digits2_pos c) - prec - 0) by lia.
    apply binary_round_aux_exact; [lia | | apply canon_bounded, Hc].
    rewrite Hm1, Hm. replace (prec - Zpos (digits2_pos c)) with k by lia. cbn. lia.
  - replace (- k) with (Zpos (digits2_pos c) - prec - Zpos q) by lia.
    apply binary_round_aux_exact; [lia | | apply canon_bounded, Hc].
    rewrite Hm1, Hm, <- Z.mul_assoc, <- Z.pow_add_r by lia.
    do 2 f_equal. lia.
  - replace (Zpos (digits2_pos c) - prec) with (Zpos (digits2_pos c) - prec - 0) at 1 by lia.
    apply binary_round_aux_exact; [lia | | apply canon_bounded, Hc].
    rewrite iter_xO_pow, Hm1, Hm, <- Z.mul_assoc, <- Z.pow_add_r by lia.
    cbn [Z.pow]. rewrite Z.mul_1_r. do 2 f_equal. lia.
Qed.

Lemma Z2SF_pos (c : positive) :
  Zpos c < 2 ^ prec -> Z2SF (Zpos c) = canon c.
Proof.
  intros Hc. unfold Z2SF, binary_normalize.
  apply (binary_round_whole c c 0); [lia | cbn; lia | exact Hc].
Qed.

Lemma Z2SF_valid (n : Z) :
  0 <= n < 2 ^ prec -> valid_binary (Z2SF n) = true.
Proof.
  intros [Hn Hlt]. destruct n as [| c | c]; [reflexivity | | lia].
  rewrite Z2SF_pos by exact Hlt. apply canon_bounded, Hlt.
Qed.

(** A whole number, scaled by a power of two, normalizes to its float. *)
Lemma binary_normalize_whole (n k : Z) :
  0 <= k -> 0 <= n < 2 ^ prec ->
  binary_normalize prec emax (n * 2 ^ k) (- k) false = Z2SF n.
Proof.
  intros Hk [Hn Hlt]. destruct n as [| c | c]; [reflexivity | | lia].
  rewrite Z2SF_pos by exact Hlt.
  pose proof (Z.pow_pos_nonneg 2 k ltac:(lia) Hk) as Hpow.
  destruct (Zpos c * 2 ^ k) as [| m | m] eqn:Hm; [nia | | nia].
  cbn [binary_normalize]. apply binary_round_whole; [exact Hk | congruence | exact Hlt].
Qed.

Lemma canon_aligned (c : positive) (ez : Z) :
  Zpos c < 2 ^ prec -> ez <= Zpos (digits2_pos c) - prec ->
  Zpos (fst (shl_align (Z.to_pos (Zpos c * 2 ^ (prec - Zpos (digits2_pos c))))
                       (Zpos (digits2_pos c) - prec) ez))
  = Zpos c * 2 ^ (- ez).
Proof.
  intros Hc Hez. pose proof (digits2_pos_le_prec c Hc) as Hd.
  rewrite shl_align_value, canon_mantissa, <- Z.mul_assoc, <- Z.pow_add_r by lia.
  do 2 f_equal. lia.
Qed.

Lemma SFsub_whole (a b : Z) :
  0 <= a -> a <= b -> b < 2 ^ prec ->
  SF64sub (Z2SF b) (Z2SF a) = Z2SF (b - a).
Proof.
  intros Ha Hab Hb.
  destruct a as [| ca | ca]; [| | lia].
  { rewrite Z.sub_0_r. destruct b as [| cb | cb]; [reflexivity | | lia].
    rewrite Z2SF_pos by exact Hb. reflexivity. }
  destruct b as [| cb | cb]; [lia | | lia].
  rewrite !Z2SF_pos by lia. unfold SF64sub, SFsub, canon. cbn [cond_Zopp].
  set (ez := Z.min _ _).
  rewrite !canon_aligned by (unfold ez; lia).
  rewrite <- Z.mul_sub_distr_r.
  rewrite <- (Z.opp_involutive ez) at 2.
  apply binary_normalize_whole; [| lia].
  pose proof (digits2_pos_le_prec ca). pose proof (digits2_pos_le_prec cb).
  unfold ez. lia.
Qed.

Lemma SFadd_whole (a b : Z) :
  0 <= a -> 0 <= b -> a + b < 2 ^ prec ->
  SF64add (Z2SF a) (Z2SF b) = Z2SF (a + b).
Proof.
  intros Ha Hb Hab.
  destruct a as [| ca | ca]; [| | lia].
  { destruct b as [| cb | cb]; [reflexivity | | lia].
    rewrite Z.add_0_l, Z2SF_pos by lia. reflexivity. }
  destruct b as [| cb | cb]; [| | lia].
  { rewrite Z.add_0_r, Z2SF_pos by lia. reflexivity. }
  rewrite !Z2SF_pos by lia. unfold SF64add, SFadd, canon. cbn [cond_Zopp].
  set (ez := Z.min _ _).
  rewrite !canon_aligned by (unfold ez; lia).
  rewrite <- Z.mul_add_distr_r.
  rewrite <- (Z.opp_involutive ez) at 2.
  apply binary_normalize_whole; [| lia].
  pose proof (digits2_pos_le_prec ca). pose proof (digits2_pos_le_prec cb).
  unfold ez. lia.
Qed.

Lemma digits2_pos_mono (x y : positive) :
  Zpos x <= Zpos y -> Zpos (digits2_pos x) <= Zpos (digits2_pos y).
Proof.
  intros Hxy. pose proof (digits2_pos_bounds x) as [Hx _].
  pose proof (digits2_pos_bounds y) as [_ Hy].
  destruct (Z.le_gt_cases (Zpos (digits2_pos x)) (Zpos (digits2_pos y)))
    as [? | Hgt]; [assumption |].
  assert (2 ^ Zpos (digits2_pos y) <= 2 ^ (Zpos (digits2_pos x) - 1))
    by (apply Z.pow_le_mono_r; lia).
  lia.
Qed.

(** The floats of whole numbers are ordered like the numbers. *)
Lemma SFltb_whole (x y : Z) :
  0 <= x -> x < y -> y < 2 ^ prec -> SFltb (Z2SF x) (Z2SF y) = true.
Proof.
  intros Hx Hxy Hy.
  destruct y as [| cy | cy]; [lia | | lia]. rewrite (Z2SF_pos cy) by lia.
  destruct x as [| cx | cx]; [reflexivity | | lia]. rewrite (Z2SF_pos cx) by lia.
  pose proof (digits2_pos_mono cx cy ltac:(lia)) as Hd.
  pose proof (digits2_pos_le_prec cy Hy) as Hdy.
  unfold SFltb, SFcompare, canon.
  destruct (Z.compare_spec (Zpos (digits2_pos cx) - prec) (Zpos (digits2_pos cy) - prec))
    as [Heq | Hlt | Hgt]; [| reflexivity | lia].
  change (Pos.compare_cont Eq ?p ?q) with (Pos.compare p q).
  assert (Zpos (Z.to_pos (Zpos cx * 2 ^ (prec - Zpos (digits2_pos cx))))
          < Zpos (Z.to_pos (Zpos cy * 2 ^ (prec - Zpos (digits2_pos cy))))) as Hm.
  { rewrite !canon_mantissa by lia.
    replace (Zpos (digits2_pos cx)) with (Zpos (digits2_pos cy)) by lia.
    apply Z.mul_lt_mono_pos_r; [apply Z.pow_pos_nonneg; lia | lia]. }
  unfold Z.lt in Hm. cbn [Z.compare] in Hm. rewrite Hm. reflexivity.
Qed.

Lemma SFeqb_whole (n : Z) :
  0 <= n < 2 ^ prec -> SFeqb (Z2SF n) (Z2SF n) = true.
Proof.
  intros [Hn Hlt]. destruct n as [| c | c]; [reflexivity | | lia].
  rewrite Z2SF_pos by exact Hlt. unfold SFeqb, SFcompare, canon.
  rewrite Z.compare_refl, Pos.compare_cont_refl. reflexivity.
Qed.

Lemma whole_sub (x y : float) (b a : Z) :
  whole x b -> whole y a -> gtb y x = false -> whole (x - y) (b - a).
Proof.
  intros [Hb Hx] [Ha Hy] Hgt.
  assert (a <= b) as Hab.
  { destruct (Z.le_gt_cases a b) as [? | Hlt]; [assumption | exfalso].
    unfold gtb in Hgt. rewrite FloatAxioms.ltb_spec, Hx, Hy in Hgt.
    rewrite SFltb_whole in Hgt by lia. discriminate. }
  split; [lia |]. rewrite sub_spec, Hx, Hy. apply SFsub_whole; lia.
Qed.

Lemma whole_add (x y : float) (a b : Z) :
  whole x a -> whole y b -> a + b < 2 ^ prec -> whole (x + y) (a + b).
Proof.
  intros [Ha Hx] [Hb Hy] Hab. split; [lia |].
  rewrite add_spec, Hx, Hy. apply SFadd_whole; lia.
Qed.

Lemma whole_eqb (x y : float) (n : Z) :
  whole x n -> whole y n -> (x =? y)%float = true.
Proof.
  intros [Hn Hx] [_ Hy]. rewrite FloatAxioms.eqb_spec, Hx, Hy.
  apply SFeqb_whole, Hn.
Qed.

Lemma whole_sum (xs : list float) (ns : list Z) (acc : float) (a : Z) :
  Forall2 whole xs ns -> whole acc a ->
  a + fold_right Z.add 0 ns < 2 ^ prec ->
  whole (fold_left PrimFloat.add xs acc) (a + fold_right Z.add 0 ns).
Proof.
  intros Hxs. revert acc a.
  induction Hxs as [| x n xs ns Hx Hxs IH]; intros acc a Hacc Hlt; cbn in *.
  - rewrite Z.add_0_r. exact Hacc.
  - assert (0 <= fold_right Z.add 0 ns).
    { clear -Hxs. induction Hxs as [| ? ? ? ? [[? _] _] _ IH]; cbn; lia. }
    destruct Hx as [Hn Hx]. rewrite Z.add_assoc. apply IH; [| lia].
    apply whole_add; [exact Hacc | split; assumption | lia].
Qed.

Lemma units_whole (x : float) (n : Z) :
  whole x n -> units x = Some (n * 2 ^ (- emin)).
Proof.
  intros [[Hn Hlt] Hx]. unfold units. rewrite Hx.
  destruct n as [| c | c]; [reflexivity | | lia].
  rewrite Z2SF_pos by exact Hlt. unfold canon. cbn [cond_Zopp]. f_equal.
  pose proof (digits2_pos_le_prec c Hlt) as Hd.
  pose proof (digits2_pos_bounds c) as _.
  rewrite canon_mantissa, <- Z.mul_assoc, <- Z.pow_add_r
    by (unfold SpecFloat.emin, prec, emax in *; lia).
  do 2 f_equal. lia.
Qed.

Lemma units_sum_whole (xs : list float) (ns : list Z) :
  Forall2 whole xs ns ->
  units_sum xs = Some (fold_right Z.add 0 ns * 2 ^ (- emin)).
Proof.
  induction 1 as [| x n xs ns Hx _ IH]; [reflexivity |].
  cbn [units_sum foldr fold_right]. fold (units_sum xs).
  rewrite (units_whole x n Hx), IH. cbn. f_equal. lia.
Qed.

Lemma shr_1_m (r : shr_record) :
  0 <= shr_m r -> shr_m (shr_1 r) = shr_m r / 2 /\ 0 <= shr_m (shr_1 r).
Proof.
  destruct r as [m b s]. cbn [shr_m]. intros Hm.
  destruct m as [| [p | p |] | p]; cbn [shr_1 shr_m]; [| | | | lia].
  - split; [reflexivity | lia].
  - split; [| lia]. rewrite Pos2Z.inj_xI. apply Z.div_unique with 1; lia.
  - split; [| lia]. rewrite Pos2Z.inj_xO. apply Z.div_unique with 0; lia.
  - split; [reflexivity | lia].
Qed.

Lemma iter_shr_1_m (p : positive) (r : shr_record) :
  0 <= shr_m r ->
  shr_m (SpecFloat.iter_pos shr_1 p r) = shr_m r / 2 ^ Zpos p /\
  0 <= shr_m (SpecFloat.iter_pos shr_1 p r).
Proof.
  rewrite iter_pos_iter. intros Hr.
  induction p as [| p [IH IH0]] using Pos.peano_ind.
  - cbn [Pos.iter]. apply shr_1_m, Hr.
  - rewrite Pos.iter_succ. destruct (shr_1_m _ IH0) as [-> H0]. split; [| exact H0].
    rewrite IH, Pos2Z.inj_succ, Z.pow_succ_r, Z.div_div by lia.
    f_equal. lia.
Qed.

Lemma shr_m_e (r : shr_record) (e n : Z) :
  0 <= shr_m r -> 0 <= n ->
  shr_m (fst (shr r e n)) = shr_m r / 2 ^ n /\ snd (shr r e n) = e + n.
Proof.
  intros Hr Hn. destruct n as [| p | p]; [| | lia]; cbn [shr fst snd].
  - rewrite Z.div_1_r. split; [reflexivity | lia].
  - split; [apply iter_shr_1_m, Hr | reflexivity].
Qed.

Lemma shr_none (r : shr_record) (e n : Z) : n <= 0 -> shr r e n = (r, e).
Proof. destruct n; [reflexivity | lia | reflexivity]. Qed.

Lemma round_nearest_even_bounds (m : Z) (l : location) :
  m <= round_nearest_even m l <= m + 1.
Proof.
  unfold round_nearest_even. destruct l as [| []]; try destruct (Z.even m); lia.
Qed.

Lemma Zdigits2_le (z k : Z) : 0 <= z < 2 ^ k -> 0 <= k -> Zdigits2 z <= k.
Proof.
  intros [Hz Hlt] Hk. destruct z as [| p | p]; [exact Hk | | lia]. cbn [Zdigits2].
  pose proof (digits2_pos_bounds p) as [Hlo _].
  destruct (Z.le_gt_cases (Zpos (digits2_pos p)) k) as [? | Hgt]; [assumption |].
  assert (2 ^ k <= 2 ^ (Zpos (digits2_pos p) - 1)) by (apply Z.pow_le_mono_r; lia).
  lia.
Qed.

Lemma digits_sum_le (d mb : positive) (ez eb : Z) :
  ez <= eb -> Zpos d < Zpos mb * 2 ^ (eb - ez) ->
  Zpos (digits2_pos d) + ez <= Zpos (digits2_pos mb) + eb.
Proof.
  intros Hez Hd. pose proof (digits2_pos_bounds d) as [Hlo _].
  pose proof (digits2_pos_bounds mb) as [_ Hhi].
  assert (Zpos mb * 2 ^ (eb - ez) < 2 ^ (Zpos (digits2_pos mb) + (eb - ez))).
  { rewrite Z.pow_add_r by lia. apply Z.mul_lt_mono_pos_r; [| exact Hhi].
    apply Z.pow_pos_nonneg; lia. }
  destruct (Z.le_gt_cases (Zpos (digits2_pos d) + ez) (Zpos (digits2_pos mb) + eb))
    as [? | Hgt]; [assumption |].
  assert (2 ^ (Zpos (digits2_pos mb) + (eb - ez)) <= 2 ^ (Zpos (digits2_pos d) - 1))
    by (apply Z.pow_le_mono_r; lia).
  lia.
Qed.

Lemma binary_round_aux_le (d mb : positive) (ez eb : Z) :
  bounded prec emax mb eb = true ->
  emin <= ez -> ez <= eb ->
  Zpos d < Zpos mb * 2 ^ (eb - ez) ->
  ez <= fexp prec emax (Zpos (digits2_pos d) + ez) ->
  sf_at_most (S754_finite false mb eb)
    (binary_round_aux prec emax false (Zpos d) ez loc_Exact).
Proof.
  intros [Hc He]%andb_prop Hemin Hez Hd Ht.
  pose proof (canonical_bounds _ _ Hc) as (_ & Hdb & Hnorm).
  pose proof (digits_sum_le d mb ez eb Hez Hd) as Hsum.
  apply Z.leb_le in He.
  set (t := fexp prec emax (Zpos (digits2_pos d) + ez)) in *.
  assert (t <= eb /\ emin <= t /\ Zpos (digits2_pos d) + ez - prec <= t) as (Hteb & Htmin & Htd).
  { unfold canonical_mantissa in Hc. apply Z.eqb_eq in Hc.
    unfold t, fexp in *. lia. }
  unfold binary_round_aux, shr_fexp. cbn [Zdigits2 shr_record_of_loc]. fold t.
  destruct (shr_m_e (Build_shr_record (Zpos d) false false) ez (t - ez))
    as [Hm1 He1]; [cbn; lia | lia |].
  destruct (shr _ ez (t - ez)) as [mrs' e'] eqn:Hshr1. cbn [fst snd shr_m] in Hm1, He1.
  replace e' with t by lia. clear He1 Hshr1 e'.
  pose proof (Z.pow_pos_nonneg 2 (t - ez) ltac:(lia) ltac:(lia)) as Hpow.
  assert (0 <= shr_m mrs') as Hm0 by (rewrite Hm1; apply Z.div_pos; lia).
  assert (shr_m mrs' < 2 ^ prec) as Hm53.
  { rewrite Hm1. apply Z.div_lt_upper_bound; [exact Hpow |].
    pose proof (digits2_pos_bounds d) as [_ Hhi].
    eapply Z.lt_le_trans; [exact Hhi |].
    rewrite <- Z.pow_add_r by (unfold prec; lia). apply Z.pow_le_mono_r; lia. }
  assert (t = eb -> shr_m mrs' < Zpos mb) as Hmb.
  { intros ->. rewrite Hm1. apply Z.div_lt_upper_bound; [exact Hpow | lia]. }
  pose proof (round_nearest_even_bounds (shr_m mrs') (loc_of_shr_record mrs')) as Hrne.
  set (m1 := round_nearest_even (shr_m mrs') (loc_of_shr_record mrs')) in *.
  destruct (Z.eq_dec m1 (2 ^ prec)) as [Hcarry | Hnocarry].
  - (* the rounding carried into a 54th digit *)
    assert (t < eb) as Hlt.
    { destruct (Z.eq_dec t eb) as [Heq | ?]; [| lia]. specialize (Hmb Heq).
      pose proof (digits2_pos_bounds mb) as [_ Hhi].
      assert (2 ^ Zpos (digits2_pos mb) <= 2 ^ prec) by (apply Z.pow_le_mono_r; lia).
      lia. }
    rewrite Hcarry. change (Zdigits2 (2 ^ prec)) with 54.
    replace (fexp prec emax (54 + t) - t) with 1
      by (clearbody t; clear -Htmin; unfold fexp, prec in *; lia).
    change (shr (Build_shr_record (2 ^ prec) false false) t 1)
      with (Build_shr_record 4503599627370496 false false, t + 1).
    cbn [shr_m].
    destruct (Z.leb_spec (t + 1) (emax - prec)) as [_ | Hover]; [| lia].
    unfold sf_at_most, SFleb, SFcompare.
    destruct (Z.compare_spec (t + 1) eb) as [Heq | _ | Hgt]; [| reflexivity | lia].
    specialize (Hnorm ltac:(lia)).
    pose proof (digits2_pos_bounds mb) as [Hlo _]. rewrite Hnorm in Hlo.
    change (2 ^ (prec - 1)) with 4503599627370496 in Hlo.
    change (Pos.compare_cont Eq ?p ?q) with (Z.compare (Zpos p) (Zpos q)).
    destruct (Z.compare_spec 4503599627370496 (Zpos mb)) as [_ | _ | Hbad];
      try reflexivity.
    exfalso. clear -Hlo Hbad. lia.
  - assert (0 <= m1 < 2 ^ prec) as Hm1' by lia.
    pose proof (Zdigits2_le m1 prec Hm1' ltac:(unfold prec; lia)) as Hdig.
    assert (fexp prec emax (Zdigits2 m1 + t) - t <= 0) as Hn2
      by (clearbody t m1; clear -Hdig Htmin; unfold fexp in *; lia).
    rewrite shr_none by exact Hn2.
    cbn [shr_m]. destruct m1 as [| m | m] eqn:Em1; [exact I | | lia].
    destruct (Z.leb_spec t (emax - prec)) as [_ | Hover]; [| lia].
    unfold sf_at_most, SFleb, SFcompare.
    destruct (Z.compare_spec t eb) as [Heq | _ | Hgt]; [| reflexivity | lia].
    specialize (Hmb Heq).
    change (Pos.compare_cont Eq ?p ?q) with (Z.compare (Zpos p) (Zpos q)).
    destruct (Z.compare_spec (Zpos m) (Zpos mb)) as [_ | _ | Hbad]; try reflexivity.
    exfalso. clear -Hrne Hmb Hbad. lia.
Qed.

Lemma binary_round_le (d mb : positive) (ez eb : Z) :
  bounded prec emax mb eb = true ->
  emin <= ez -> ez <= eb ->
  Zpos d < Zpos mb * 2 ^ (eb - ez) ->
  sf_at_most (S754_finite false mb eb) (binary_round prec emax false d ez).
Proof.
  intros Hb Hemin Hez Hd. unfold binary_round.
  set (t := fexp prec emax (Zpos (digits2_pos d) + ez)).
  destruct (Z.le_gt_cases ez t) as [Hle | Hgt].
  - assert (shl_align d ez t = (d, ez)) as ->.
    { unfold shl_align. destruct (t - ez) eqn:E; try reflexivity. lia. }
    apply binary_round_aux_le; assumption.
  - assert (exists q, shl_align d ez t = (Pos.iter xO d q, t) /\ Zpos q = ez - t)
      as (q & -> & Hq).
    { unfold shl_align. destruct (t - ez) as [| q | q] eqn:E; try lia.
      exists q. split; [reflexivity | lia]. }
    pose proof (iter_xO_pow q d) as Hmz.
    assert (Zpos (digits2_pos (Pos.iter xO d q)) = Zpos (digits2_pos d) + Zpos q) as Hdig
      by (apply digits2_pos_shift; [lia | exact Hmz]).
    apply andb_prop in Hb as [Hc He]. apply Z.leb_le in He.
    replace t with (t - 0) at 1 by lia.
    rewrite (binary_round_aux_exact _ (Pos.iter xO d q) t 0); [| lia | cbn; lia |].
    + unfold sf_at_most, SFleb, SFcompare.
      destruct (Z.compare_spec t eb) as [? | _ | ?]; [lia | reflexivity | lia].
    + unfold bounded, canonical_mantissa. rewrite Hdig.
      replace (Zpos (digits2_pos d) + Zpos q + t) with (Zpos (digits2_pos d) + ez) by lia.
      fold t. rewrite Z.eqb_refl. cbn [andb]. apply Z.leb_le. lia.
Qed.

(** The subtraction of [MakeRepayment], for an amount above zero taken from
    a balance that it does not exceed: the result is [+0] or a finite
    float above zero, and is not above the balance. *)
Lemma SFsub_range (ma mb : positive) (ea eb : Z) :
  bounded prec emax ma ea = true ->
  bounded prec emax mb eb = true ->
  SFltb (S754_finite false mb eb) (S754_finite false ma ea) = false ->
  sf_at_most (S754_finite false mb eb)
    (SF64sub (S754_finite false mb eb) (S754_finite false ma ea)).
Proof.
  intros Ha Hb Hlt. unfold SF64sub, SFsub. cbn [cond_Zopp].
  pose proof (aligned_mantissas ma mb ea eb Ha Hb Hlt) as Hal.
  pose proof Ha as [Hca _]%andb_prop. pose proof Hb as [Hcb _]%andb_prop.
  apply canonical_bounds in Hca as (Hea & _). apply canonical_bounds in Hcb as (Heb & _).
  set (ez := Z.min eb ea) in *.
  assert (emin <= ez /\ ez <= eb) as [Hez1 Hez2] by (unfold ez; lia).
  clearbody ez.
  pose proof (shl_align_value mb eb ez Hez2) as Hmb.
  destruct (Zpos (fst (shl_align mb eb ez)) - Zpos (fst (shl_align ma ea ez)))
    as [| d | d] eqn:Hd; [exact I | | lia].
  cbn [binary_normalize]. apply binary_round_le; try assumption. lia.
Qed.

Lemma finite_shape (x : float) :
  finite x = true <->
  match Prim2SF x with
  | S754_zero _ | S754_finite _ _ _ => True
  | _ => False
  end.
Proof.
  unfold finite, PrimFloat.is_finite, PrimFloat.is_nan, PrimFloat.is_infinity.
  rewrite !FloatAxioms.eqb_spec, abs_spec.
  change (Prim2SF infinity) with (S754_infinity false).
  destruct (Prim2SF x) as [[|] | [|] | | [|] m e]; cbn;
    rewrite ?Z.compare_refl, ?Pos.compare_cont_refl; cbn; intuition discriminate.
Qed.

(** A repayment above zero and not above a finite balance: the amount is
    finite, and the new balance is finite, zero or more, and not above the
    old one. *)
Lemma sub_in_range (a b : float) :
  finite b = true ->
  PrimFloat.ltb 0%float a = true ->
  PrimFloat.leb a b = true ->
  finite a = true /\ finite (b - a) = true /\
  PrimFloat.leb 0%float (b - a) = true /\ PrimFloat.leb (b - a) b = true.
Proof.
  rewrite !finite_shape, !FloatAxioms.leb_spec, FloatAxioms.ltb_spec, sub_spec.
  change (Prim2SF 0%float) with (S754_zero false).
  pose proof (Prim2SF_valid a) as Ha. pose proof (Prim2SF_valid b) as Hb.
  destruct (Prim2SF a) as [sa | [|] | | [|] ma ea]; try discriminate;
    destruct (Prim2SF b) as [sb | sb | | [|] mb eb]; try discriminate; try tauto.
  intros _ _ Hle. cbn [valid_binary] in Ha, Hb.
  assert (SFltb (S754_finite false mb eb) (S754_finite false ma ea) = false) as Hlt.
  { unfold SFleb in Hle. unfold SFltb.
    rewrite (SFcompare_antisym (S754_finite false ma ea) (S754_finite false mb eb)).
    destruct (SFcompare _ _) as [[| |] |]; cbn; congruence. }
  pose proof (SFsub_range ma mb ea eb Ha Hb Hlt) as Hr.
  destruct (SF64sub _ _) as [[|] | s | | [|] m e]; cbn in Hr; try contradiction;
    repeat split; auto.
Qed.

End Float64Facts.

(** ** The JSON encoding *)

Lemma json_eq (d1 d2 : json) : decoded d1 = decoded d2 -> d1 = d2.
Proof.
  destruct d1 as [l1 H1 T1], d2 as [l2 H2 T2]; cbn. intros ->.
  f_equal; apply proof_irrel.
Qed.

Lemma coerced_text_ok (loan : Loan) : Is_true (text_ok (coerced loan)).
Proof.
  unfold text_ok, coerced. cbn [LoanID ApplicantName Status].
  rewrite !UTF8Facts.coerceUTF8_idempotent, !String.eqb_refl. exact I.
Qed.

Lemma Marshal_Ok (loan : Loan) (doc : json) :
  Marshal loan = Ok doc -> decoded doc = coerced loan.
Proof.
  unfold Marshal.
  destruct (decide (Is_true (encodable (coerced loan)))); [| discriminate].
  destruct (decide (Is_true (text_ok (coerced loan)))); [| discriminate].
  intros [= <-]; reflexivity.
Qed.

Lemma Marshal_encodable (loan : Loan) :
  encodable loan = true ->
  exists doc, Marshal loan = Ok doc /\ decoded doc = coerced loan.
Proof.
  intros H. unfold Marshal.
  destruct (decide (Is_true (encodable (coerced loan)))) as [Hy | Hn].
  - destruct (decide (Is_true (text_ok (coerced loan)))) as [Ht | Hn].
    + eexists; split; reflexivity.
    + destruct Hn. apply coerced_text_ok.
  - destruct Hn. change (Is_true (encodable loan)). rewrite H. exact I.
Qed.

Lemma Marshal_Err (loan : Loan) (e : error) :
  Marshal loan = Err e -> e = ErrUnsupportedValue /\ encodable loan = false.
Proof.
  unfold Marshal.
  destruct (decide (Is_true (encodable (coerced loan)))) as [Hy | Hn].
  - destruct (decide (Is_true (text_ok (coerced loan)))) as [Ht | Hn];
      [discriminate | destruct Hn; apply coerced_text_ok].
  - intros [= <-]. split; [reflexivity |].
    change (encodable (coerced loan)) with (encodable loan) in Hn.
    destruct (encodable loan); [destruct Hn; exact I | reflexivity].
Qed.

(** The strings of a stored document are valid UTF-8. *)
Lemma decoded_valid (doc : json) :
  UTF8.coerceUTF8 (LoanID (decoded doc)) = LoanID (decoded doc) /\
  UTF8.coerceUTF8 (ApplicantName (decoded doc)) = ApplicantName (decoded doc) /\
  UTF8.coerceUTF8 (Status (decoded doc)) = Status (decoded doc).
Proof.
  pose proof (decoded_text doc) as H. apply Is_true_true in H. unfold text_ok in H.
  rewrite !andb_true_iff, !String.eqb_eq in H. tauto.
Qed.

Lemma coerced_decoded (doc : json) : coerced (decoded doc) = decoded doc.
Proof.
  destruct (decoded_valid doc) as (H1 & H2 & H3). unfold coerced.
  rewrite H1, H2, H3. destruct (decoded doc); reflexivity.
Qed.

Lemma coerced_set_Status (status : string) (loan : Loan) :
  coerced loan = loan -> UTF8.coerceUTF8 status = status ->
  coerced (set_Status status loan) = set_Status status loan.
Proof.
  destruct loan. unfold coerced, set_Status.
  cbn [LoanID ApplicantName LoanAmount TermMonths InterestRate Outstanding Status Repayments].
  intros [= H1 H2 _] ->. rewrite H1, H2. reflexivity.
Qed.

Lemma coerced_repaid (amount : float) (loan : Loan) :
  coerced loan = loan -> coerced (repaid amount loan) = repaid amount loan.
Proof.
  destruct loan. unfold coerced at 1.
  cbn [LoanID ApplicantName LoanAmount TermMonths InterestRate Outstanding Status
       Repayments].
  intros [= H1 H2 H3].
  unfold coerced, repaid, set_Status, set_Repayments, set_Outstanding.
  cbn [LoanID ApplicantName LoanAmount TermMonths InterestRate Outstanding Status
       Repayments].
  destruct (_ <=? _)%float;
    cbn [LoanID ApplicantName LoanAmount TermMonths InterestRate Outstanding Status
         Repayments];
    rewrite H1, H2, ?H3; reflexivity.
Qed.

(** Decoding and encoding again gives the stored document back. *)
Lemma Marshal_decoded (doc : json) : Marshal (decoded doc) = Ok doc.
Proof.
  destruct (Marshal_encodable (decoded doc)) as (doc' & -> & Hdoc').
  - apply Is_true_true, decoded_encodable.
  - f_equal. apply json_eq. rewrite Hdoc'. apply coerced_decoded.
Qed.

Lemma encodable_set_Status (status : string) (loan : Loan) :
  encodable (set_Status status loan) = encodable loan.
Proof. reflexivity. Qed.

(** ** The transactions, case by case

    Each transaction written out as the decision tree of its source: the
    checks in their order, and the one write at the end. *)

Lemma ApplyForLoan_run (loanID applicantName : string) (loanAmount : float)
    (termMonths : Z) (interestRate : float) (w : ledger) :
  ApplyForLoan loanID applicantName loanAmount termMonths interestRate w =
  if (loanID =? "")%string then (Err ErrLoanIDEmpty, w) else
  if (applicantName =? "")%string then (Err ErrApplicantEmpty, w) else
  if (loanAmount <=? 0)%float then (Err ErrAmountNotPositive, w) else
  if termMonths <=? 0 then (Err ErrTermNotPositive, w) else
  if (interestRate <? 0)%float then (Err ErrRateNegative, w) else
  match w !! loanID with
  | Some _ => (Err (ErrAlreadyExists loanID), w)
  | None =>
      match Marshal (mkLoan loanID applicantName loanAmount termMonths
                            interestRate loanAmount "APPLIED" []) with
      | Ok doc => (Ok tt, <[loanID := doc]> w)
      | Err e => (Err e, w)
      end
  end.
Proof.
  unfold ApplyForLoan.
  repeat (match goal with |- context [if ?b then _ else _] => destruct b end;
          [reflexivity |]).
  unfold mbind, tx_bind, wrap, GetState, throw, lift, PutState.
  destruct (w !! loanID); [reflexivity |].
  destruct (Marshal _); reflexivity.
Qed.

Lemma ApproveLoan_run (loanID status : string) (w : ledger) :
  ApproveLoan loanID status w =
  if negb (status =? "APPROVED")%string && negb (status =? "REJECTED")%string
  then (Err ErrInvalidStatus, w) else
  match w !! loanID with
  | None => (Err (ErrNotExist loanID), w)
  | Some doc =>
      if negb (Status (decoded doc) =? "APPLIED")%string
      then (Err ErrNotApplied, w) else
      match Marshal (set_Status status (decoded doc)) with
      | Ok doc' => (Ok tt, <[loanID := doc']> w)
      | Err e => (Err e, w)
      end
  end.
Proof.
  unfold ApproveLoan. destruct (_ && _); [reflexivity |].
  unfold mbind, tx_bind, wrap, GetState, throw, lift, PutState, Unmarshal.
  destruct (w !! loanID) as [doc |]; [| reflexivity].
  destruct (negb _); [reflexivity |].
  destruct (Marshal _); reflexivity.
Qed.

Lemma MakeRepayment_run (loanID : string) (repaymentAmount : float) (w : ledger) :
  MakeRepayment loanID repaymentAmount w =
  if (repaymentAmount <=? 0)%float then (Err ErrRepaymentNotPositive, w) else
  match w !! loanID with
  | None => (Err (ErrNotExist loanID), w)
  | Some doc =>
      if negb (Status (decoded doc) =? "APPROVED")%string
      then (Err ErrNotApproved, w) else
      if Float64.gtb repaymentAmount (Outstanding (decoded doc))
      then (Err ErrExceedsOutstanding, w) else
      match Marshal (repaid repaymentAmount (decoded doc)) with
      | Ok doc' => (Ok tt, <[loanID := doc']> w)
      | Err e => (Err e, w)
      end
  end.
Proof.
  unfold MakeRepayment. destruct (_ <=? _)%float; [reflexivity |].
  unfold mbind, tx_bind, wrap, GetState, throw, lift, PutState, Unmarshal.
  destruct (w !! loanID) as [doc |]; [| reflexivity].
  destruct (negb _); [reflexivity |].
  destruct (Float64.gtb _ _); [reflexivity |].
  fold (repaid repaymentAmount (decoded doc)).
  destruct (Marshal _); reflexivity.
Qed.

Lemma CheckLoanBalance_run (loanID : string) (w : ledger) :
  CheckLoanBalance loanID w =
  match w !! loanID with
  | None => (Err (ErrNotExist loanID), w)
  | Some doc => (Ok (decoded doc), w)
  end.
Proof.
  unfold CheckLoanBalance, mbind, tx_bind, wrap, GetState, throw, lift, Unmarshal.
  destruct (w !! loanID); reflexivity.
Qed.

(** ** Properties of the transactions *)

Import Float64Facts.
Local Open Scope string_scope.

(** A transaction that returns an error leaves the ledger as it found it. *)
Lemma invoke_error_unchanged (c : call) (w : ledger) (e : error) :
  (invoke c w).1 = Some e -> (invoke c w).2 = w.
Proof.
  destruct c; cbn [invoke]; unfold outcome; cbn [fst snd].
  - rewrite ApplyForLoan_run.
    repeat (match goal with |- context [if ?b then _ else _] => destruct b end;
            [reflexivity |]).
    destruct (Marshal _); cbn; [discriminate | reflexivity].
  - rewrite ApproveLoan_run. destruct (_ && _); [reflexivity |].
    destruct (w !! loanID); [| reflexivity].
    destruct (negb _); [reflexivity |].
    destruct (Marshal _); cbn; [discriminate | reflexivity].
  - rewrite MakeRepayment_run. destruct (_ <=? _)%float; [reflexivity |].
    destruct (w !! loanID); [| reflexivity].
    destruct (negb _); [reflexivity |].
    destruct (Float64.gtb _ _); [reflexivity |].
    destruct (Marshal _); cbn; [discriminate | reflexivity].
  - rewrite CheckLoanBalance_run. destruct (w !! loanID); reflexivity.
Qed.

(** C2, as the code has it.  [MakeRepayment] of an amount above zero and
    not above the outstanding balance of an APPROVED loan is accepted.  The
    stored record has the amount appended to [Repayments] and, for
    [Outstanding], the float64 difference of the old balance and the amount:
    a balance that is zero or more and not above the old one, and that is
    the old balance less the amount when both are whole numbers below
    [2^53].  When that balance is not above zero it is exactly zero and the
    status is PAID; every other field, and the status of a loan not yet
    settled, is as before. *)
Theorem MakeRepayment_accepted (w : ledger) (loanID : string) (doc : json)
    (amount : float) :
  w !! loanID = Some doc ->
  Status (decoded doc) = "APPROVED" ->
  (0 <? amount)%float = true ->
  (amount <=? Outstanding (decoded doc))%float = true ->
  exists doc',
    MakeRepayment loanID amount w = (Ok tt, <[loanID := doc']> w) /\
    Repayments (decoded doc') = (Repayments (decoded doc) ++ [amount])%list /\
    Outstanding (decoded doc') = (Outstanding (decoded doc) - amount)%float /\
    (0 <=? Outstanding (decoded doc'))%float = true /\
    (Outstanding (decoded doc') <=? Outstanding (decoded doc))%float = true /\
    (forall balance paid : Z,
       Float64.whole (Outstanding (decoded doc)) balance ->
       Float64.whole amount paid ->
       Float64.whole (Outstanding (decoded doc')) (balance - paid)) /\
    (if (Outstanding (decoded doc') <=? 0)%float
     then Outstanding (decoded doc') = 0%float /\ Status (decoded doc') = "PAID"
     else Status (decoded doc') = Status (decoded doc)) /\
    LoanID (decoded doc') = LoanID (decoded doc) /\
    ApplicantName (decoded doc') = ApplicantName (decoded doc) /\
    LoanAmount (decoded doc') = LoanAmount (decoded doc) /\
    TermMonths (decoded doc') = TermMonths (decoded doc) /\
    InterestRate (decoded doc') = InterestRate (decoded doc).
Proof.
  intros Hdoc Hst Hpos Hle.
  pose proof (decoded_encodable doc) as Henc. apply Is_true_true in Henc.
  unfold encodable in Henc. rewrite !andb_true_iff in Henc.
  destruct Henc as [[[Hfa Hfr] Hfo] Hfreps].
  destruct (sub_in_range _ _ Hfo Hpos Hle) as (Hfamt & Hfnew & Hnew0 & Hnewle).
  pose proof (gt_zero_not_le _ Hpos) as Hnle.
  pose proof (le_not_gt _ _ Hle) as Hgt.
  assert (Outstanding (repaid amount (decoded doc))
            = (Outstanding (decoded doc) - amount)%float
          /\ Repayments (repaid amount (decoded doc))
            = (Repayments (decoded doc) ++ [amount])%list
          /\ LoanID (repaid amount (decoded doc)) = LoanID (decoded doc)
          /\ ApplicantName (repaid amount (decoded doc)) = ApplicantName (decoded doc)
          /\ LoanAmount (repaid amount (decoded doc)) = LoanAmount (decoded doc)
          /\ TermMonths (repaid amount (decoded doc)) = TermMonths (decoded doc)
          /\ InterestRate (repaid amount (decoded doc)) = InterestRate (decoded doc)
          /\ Status (repaid amount (decoded doc))
            = if (Outstanding (decoded doc) - amount <=? 0)%float
              then "PAID" else Status (decoded doc))
    as (Ho & Hr & Hid & Hname & Hamt & Hterm & Hrate & Hstatus).
  { unfold repaid. cbn [Outstanding set_Outstanding set_Repayments].
    destruct (Outstanding (decoded doc) - amount <=? 0)%float; cbn; repeat split. }
  rewrite MakeRepayment_run, Hdoc, Hst, Hnle, Hgt, String.eqb_refl. cbn [negb].
  destruct (Marshal_encodable (repaid amount (decoded doc))) as (doc' & -> & Hdoc').
  { unfold encodable. rewrite Ho, Hr, Hamt, Hrate, Hfa, Hfr, Hfnew, forallb_app, Hfreps.
    cbn. rewrite Hfamt. reflexivity. }
  rewrite (coerced_repaid _ _ (coerced_decoded doc)) in Hdoc'.
  exists doc'. rewrite Hdoc', Ho, Hr, Hid, Hname, Hamt, Hterm, Hrate, Hstatus.
  do 3 (split; [reflexivity |]).
  split; [exact Hnew0 |]. split; [exact Hnewle |].
  split; [intros n a Hn Ha; apply whole_sub; assumption |].
  split; [| repeat split].
  destruct (Outstanding (decoded doc) - amount <=? 0)%float eqn:Hz; [| exact Hst].
  split; [| reflexivity]. apply sub_le_zero_eq; assumption.
Qed.

Lemma MakeRepayment_accepted_witness :
  exists doc',
    MakeRepayment "L1" 5000 ledger_approved
      = (Ok tt, <["L1" := doc']> ledger_approved) /\
    Repayments (decoded doc') = [5000%float] /\
    Outstanding (decoded doc') = 0%float /\
    Status (decoded doc') = "PAID".
Proof.
  destruct (MakeRepayment_accepted ledger_approved "L1" approved_L1 5000)
    as (doc' & Hrun & Hr & Ho & _ & _ & _ & Hs & _); try reflexivity.
  exists doc'. rewrite Ho in Hs. destruct Hs as [_ Hs].
  repeat split; assumption.
Defined.

(** C2, as stated, fails on the code.  A loan of [10^16] is applied for and
    approved, and 1 is repaid: the amount is above zero and not above the
    balance, and the three invocations are accepted.  The amount is
    appended to [Repayments], but the stored balance is still [10^16]: it
    has not been decremented by the amount. *)
Lemma balance_not_decremented :
  errors scenario_absorbed ∅ = [None; None; None] /\
  decoded <$> (run (take 2 scenario_absorbed) ∅ !! "L1")
    = Some (mkLoan "L1" "Jane Doe" 10000000000000000 12 5.5
                   10000000000000000 "APPROVED" []) /\
  (0 <? 1)%float = true /\ (1 <=? 10000000000000000)%float = true /\
  decoded <$> (run scenario_absorbed ∅ !! "L1")
    = Some (mkLoan "L1" "Jane Doe" 10000000000000000 12 5.5
                   10000000000000000 "APPROVED" [1%float]) /\
  Float64.units 10000000000000000 = Some (10000000000000000 * 2 ^ 1074)%Z /\
  Float64.units 1 = Some (2 ^ 1074)%Z.
Proof.
  repeat split.
Qed.

(** C4, as the code has it.  [ApplyForLoan] on a key that holds no record,
    with non-empty [loanID] and [applicantName], a finite [loanAmount]
    above zero, [termMonths] above zero and a finite [interestRate] that is
    zero or more, succeeds and stores a record with status APPLIED, an
    outstanding balance equal to the principal and no repayment.  When
    [loanID] or [applicantName] is empty, [loanAmount <= 0],
    [termMonths <= 0] or [interestRate < 0], it fails with an error of kind
    [InvalidArgument] and writes nothing, whatever the ledger holds. *)
Theorem ApplyForLoan_checked (w : ledger) (loanID applicantName : string)
    (loanAmount : float) (termMonths : Z) (interestRate : float) :
  (w !! loanID = None ->
   loanID <> "" -> applicantName <> "" ->
   (0 <? loanAmount)%float = true -> Float64.finite loanAmount = true ->
   (0 < termMonths)%Z ->
   (0 <=? interestRate)%float = true -> Float64.finite interestRate = true ->
   exists doc,
     ApplyForLoan loanID applicantName loanAmount termMonths interestRate w
       = (Ok tt, <[loanID := doc]> w) /\
     Status (decoded doc) = "APPLIED" /\
     LoanAmount (decoded doc) = loanAmount /\
     Outstanding (decoded doc) = loanAmount /\
     (Outstanding (decoded doc) =? LoanAmount (decoded doc))%float = true /\
     Repayments (decoded doc) = [])
  /\
  (loanID = "" \/ applicantName = "" \/ (loanAmount <=? 0)%float = true \/
   (termMonths <= 0)%Z \/ (interestRate <? 0)%float = true ->
   exists e,
     ApplyForLoan loanID applicantName loanAmount termMonths interestRate w
       = (Err e, w) /\
     kind e = InvalidArgument).
Proof.
  rewrite ApplyForLoan_run. split.
  - intros Hnone Hid Hname Hpos Hfin Hterm Hrate Hfinr.
    apply String.eqb_neq in Hid, Hname. rewrite Hid, Hname.
    rewrite (gt_zero_not_le _ Hpos), (ge_zero_not_lt _ Hrate), Hnone.
    destruct (Z.leb_spec termMonths 0) as [? | _]; [lia |].
    destruct (Marshal_encodable
                (mkLoan loanID applicantName loanAmount termMonths
                        interestRate loanAmount "APPLIED" []))
      as (doc & -> & Hdoc).
    { unfold encodable. cbn. rewrite Hfin, Hfinr. reflexivity. }
    exists doc. rewrite Hdoc. cbn. rewrite (finite_eqb_refl _ Hfin).
    repeat split.
  - intros Hbad.
    destruct (String.eqb_spec loanID "") as [_ | Hid]; [eexists; split; reflexivity |].
    destruct (String.eqb_spec applicantName "") as [_ | Hname];
      [eexists; split; reflexivity |].
    destruct (loanAmount <=? 0)%float eqn:Hamt; [eexists; split; reflexivity |].
    destruct (Z.leb_spec termMonths 0) as [_ | Hterm]; [eexists; split; reflexivity |].
    destruct (interestRate <? 0)%float eqn:Hrate; [eexists; split; reflexivity |].
    destruct Hbad as [? | [? | [? | [? | ?]]]]; try contradiction; try discriminate; lia.
Qed.

Lemma ApplyForLoan_checked_witness :
  (exists doc,
     ApplyForLoan "L1" "Jane Doe" 5000 12 5.5 ∅ = (Ok tt, <["L1" := doc]> ∅) /\
     Status (decoded doc) = "APPLIED" /\
     Outstanding (decoded doc) = 5000%float /\
     Repayments (decoded doc) = []) /\
  (exists e,
     ApplyForLoan "L1" "Jane Doe" 0 12 5.5 ledger_applied = (Err e, ledger_applied) /\
     kind e = InvalidArgument).
Proof.
  split.
  - destruct (ApplyForLoan_checked ∅ "L1" "Jane Doe" 5000 12 5.5) as [Hok _].
    destruct Hok as (doc & Hrun & Hst & _ & Hout & _ & Hrep);
      try reflexivity; try discriminate.
    exists doc. repeat split; assumption.
  - destruct (ApplyForLoan_checked ledger_applied "L1" "Jane Doe" 0 12 5.5) as [_ Hbad].
    apply Hbad. right. right. left. reflexivity.
Defined.

(** C4, as stated, fails on the code.  A principal of [+Inf] meets every
    stated condition, on a free key, and yet the transaction returns an
    error: [json.Marshal] refuses the record.  A principal of [NaN] is not
    above zero and yet passes the checks on the arguments: the error that
    is returned comes from [json.Marshal], and is not of kind
    [InvalidArgument]. *)
Lemma ApplyForLoan_checks_miss_infinity_and_nan :
  ("L1" <> "" /\ "Jane Doe" <> "" /\ (0 <? infinity)%float = true /\
   (0 < 12)%Z /\ (0 <=? 5.5)%float = true /\
   (∅ : ledger) !! "L1" = None /\
   ApplyForLoan "L1" "Jane Doe" infinity 12 5.5 ∅ = (Err ErrUnsupportedValue, ∅))
  /\
  ((0 <? nan)%float = false /\
   ApplyForLoan "L1" "Jane Doe" nan 12 5.5 ∅ = (Err ErrUnsupportedValue, ∅) /\
   kind ErrUnsupportedValue <> InvalidArgument).
Proof.
  repeat split; try reflexivity; discriminate.
Qed.

(** C5, as the code has it.  [ApplyForLoan] on a key that already holds a
    record always fails and leaves the ledger unchanged.  The checks on the
    arguments come first, in their order, and the first one that fails
    gives the error, of kind [InvalidArgument]: an empty [loanID], an empty
    [applicantName], [loanAmount <= 0], [termMonths <= 0],
    [interestRate < 0].  The error is [ErrAlreadyExists], of kind
    [AlreadyExists], exactly when the arguments pass all five checks. *)
Theorem ApplyForLoan_duplicate (w : ledger) (doc : json)
    (loanID applicantName : string) (loanAmount : float) (termMonths : Z)
    (interestRate : float) :
  w !! loanID = Some doc ->
  exists e,
    ApplyForLoan loanID applicantName loanAmount termMonths interestRate w
      = (Err e, w) /\
    (loanID = "" -> e = ErrLoanIDEmpty) /\
    (loanID <> "" -> applicantName = "" -> e = ErrApplicantEmpty) /\
    (loanID <> "" -> applicantName <> "" -> (loanAmount <=? 0)%float = true ->
     e = ErrAmountNotPositive) /\
    (loanID <> "" -> applicantName <> "" -> (loanAmount <=? 0)%float = false ->
     (termMonths <= 0)%Z -> e = ErrTermNotPositive) /\
    (loanID <> "" -> applicantName <> "" -> (loanAmount <=? 0)%float = false ->
     (0 < termMonths)%Z -> (interestRate <? 0)%float = true ->
     e = ErrRateNegative) /\
    (loanID <> "" -> applicantName <> "" -> (loanAmount <=? 0)%float = false ->
     (0 < termMonths)%Z -> (interestRate <? 0)%float = false ->
     e = ErrAlreadyExists loanID) /\
    (kind e = AlreadyExists <->
     loanID <> "" /\ applicantName <> "" /\ (loanAmount <=? 0)%float = false /\
     (0 < termMonths)%Z /\ (interestRate <? 0)%float = false) /\
    (kind e = InvalidArgument <->
     loanID = "" \/ applicantName = "" \/ (loanAmount <=? 0)%float = true \/
     (termMonths <= 0)%Z \/ (interestRate <? 0)%float = true).
Proof.
  intros Hdoc. rewrite ApplyForLoan_run, Hdoc.
  destruct (String.eqb_spec loanID "") as [Hid | Hid];
    [| destruct (String.eqb_spec applicantName "") as [Hname | Hname];
       [| destruct (loanAmount <=? 0)%float eqn:Hamt;
          [| destruct (Z.leb_spec termMonths 0) as [Hterm | Hterm];
             [| destruct (interestRate <? 0)%float eqn:Hrate]]]].
  all: eexists; split; [reflexivity |].
  all: repeat match goal with |- _ /\ _ => split end.
  all: try (intros; first [reflexivity | contradiction | discriminate | lia]).
  all: cbn [kind]; split; intros H; try discriminate H; auto 6.
  all: try (destruct H as (? & ? & ? & ? & ?); first [contradiction | discriminate | lia]).
  all: destruct H as [? | [? | [? | [? | ?]]]];
         first [contradiction | discriminate | lia].
Qed.

Lemma ApplyForLoan_duplicate_witness :
  ApplyForLoan "L1" "John Doe" 700 6 4 ledger_applied
    = (Err (ErrAlreadyExists "L1"), ledger_applied) /\
  ApplyForLoan "L1" "John Doe" 700 0 (-4) ledger_applied
    = (Err ErrTermNotPositive, ledger_applied).
Proof.
  split.
  - destruct (ApplyForLoan_duplicate ledger_applied applied_L1 "L1" "John Doe" 700 6 4)
      as (e & Hrun & _ & _ & _ & _ & _ & He & _); [reflexivity |].
    rewrite Hrun, He; try reflexivity; discriminate.
  - destruct (ApplyForLoan_duplicate ledger_applied applied_L1 "L1" "John Doe" 700 0 (-4))
      as (e & Hrun & _ & _ & _ & He & _); [reflexivity |].
    rewrite Hrun, He; try reflexivity; discriminate.
Defined.

(** C5, as stated, fails on the code: on a key that holds a record, a
    principal of zero is refused by the check on the amount, before the
    ledger is read, and the error is not [ErrAlreadyExists]. *)
Lemma ApplyForLoan_duplicate_invalid_amount :
  ledger_applied !! "L1" = Some applied_L1 /\
  ApplyForLoan "L1" "Jane Doe" 0 12 5.5 ledger_applied
    = (Err ErrAmountNotPositive, ledger_applied) /\
  kind ErrAmountNotPositive <> AlreadyExists.
Proof.
  repeat split; try reflexivity; discriminate.
Qed.

(** C6.  [ApproveLoan] with a status of APPROVED or REJECTED: on a key
    without a record it fails with a [NotFound] error; on a record whose
    status is not APPLIED it fails with an [InvalidState] error and the
    ledger is unchanged; on an APPLIED record it succeeds and stores the
    record with [Status] set to the given status and every other field as it
    was. *)
Theorem ApproveLoan_decides (w : ledger) (loanID status : string) :
  status = "APPROVED" \/ status = "REJECTED" ->
  match w !! loanID with
  | None =>
      ApproveLoan loanID status w = (Err (ErrNotExist loanID), w) /\
      kind (ErrNotExist loanID) = NotFound
  | Some doc =>
      if (Status (decoded doc) =? "APPLIED")%string
      then
        exists doc',
          ApproveLoan loanID status w = (Ok tt, <[loanID := doc']> w) /\
          Status (decoded doc') = status /\
          LoanID (decoded doc') = LoanID (decoded doc) /\
          ApplicantName (decoded doc') = ApplicantName (decoded doc) /\
          LoanAmount (decoded doc') = LoanAmount (decoded doc) /\
          TermMonths (decoded doc') = TermMonths (decoded doc) /\
          InterestRate (decoded doc') = InterestRate (decoded doc) /\
          Outstanding (decoded doc') = Outstanding (decoded doc) /\
          Repayments (decoded doc') = Repayments (decoded doc)
      else
        ApproveLoan loanID status w = (Err ErrNotApplied, w) /\
        kind ErrNotApplied = InvalidState
  end.
Proof.
  intros Hst. rewrite ApproveLoan_run.
  assert (negb (status =? "APPROVED") && negb (status =? "REJECTED") = false) as ->
    by (destruct Hst as [-> | ->]; reflexivity).
  destruct (w !! loanID) as [doc |]; [| split; reflexivity].
  destruct (Status (decoded doc) =? "APPLIED"); cbn [negb]; [| split; reflexivity].
  destruct (Marshal_encodable (set_Status status (decoded doc))) as (doc' & -> & Hdoc).
  { rewrite encodable_set_Status. apply Is_true_true, decoded_encodable. }
  rewrite coerced_set_Status in Hdoc
    by (try apply coerced_decoded; destruct Hst as [-> | ->]; reflexivity).
  exists doc'. rewrite Hdoc. repeat split.
Qed.

Lemma ApproveLoan_decides_witness :
  exists doc',
    ApproveLoan "L1" "APPROVED" ledger_applied
      = (Ok tt, <["L1" := doc']> ledger_applied) /\
    decoded doc' = decoded approved_L1.
Proof.
  pose proof (ApproveLoan_decides ledger_applied "L1" "APPROVED" (or_introl eq_refl)) as H.
  change (ledger_applied !! "L1") with (Some applied_L1) in H.
  change (Status (decoded applied_L1) =? "APPLIED") with true in H.
  cbv iota in H. destruct H as (doc' & Hrun & H1 & H2 & H3 & H4 & H5 & H6 & H7 & H8).
  exists doc'. split; [exact Hrun |].
  destruct doc' as [[] ? ?]; cbn in *. subst. reflexivity.
Defined.

(** C7.  The checks of [MakeRepayment], in the order in which the code
    makes them, the first failed check deciding the error: an amount with
    [amount <= 0] gives an [InvalidArgument] error; then a key without a
    record gives a [NotFound] error; then a status other than APPROVED gives
    an [InvalidState] error; then an amount above the outstanding balance
    gives an [ExceedsBalance] error.  In each case the ledger is returned
    as it was. *)
Theorem MakeRepayment_refusals (w : ledger) (loanID : string) (amount : float) :
  ((amount <=? 0)%float = true ->
   MakeRepayment loanID amount w = (Err ErrRepaymentNotPositive, w) /\
   kind ErrRepaymentNotPositive = InvalidArgument)
  /\
  ((amount <=? 0)%float = false -> w !! loanID = None ->
   MakeRepayment loanID amount w = (Err (ErrNotExist loanID), w) /\
   kind (ErrNotExist loanID) = NotFound)
  /\
  (forall doc,
     (amount <=? 0)%float = false -> w !! loanID = Some doc ->
     Status (decoded doc) <> "APPROVED" ->
     MakeRepayment loanID amount w = (Err ErrNotApproved, w) /\
     kind ErrNotApproved = InvalidState)
  /\
  (forall doc,
     (amount <=? 0)%float = false -> w !! loanID = Some doc ->
     Status (decoded doc) = "APPROVED" ->
     Float64.gtb amount (Outstanding (decoded doc)) = true ->
     MakeRepayment loanID amount w = (Err ErrExceedsOutstanding, w) /\
     kind ErrExceedsOutstanding = ExceedsBalance).
Proof.
  rewrite MakeRepayment_run. split; [| split; [| split]].
  - intros ->. split; reflexivity.
  - intros -> ->. split; reflexivity.
  - intros doc -> -> Hst%String.eqb_neq. rewrite Hst. split; reflexivity.
  - intros doc -> -> -> ->. split; reflexivity.
Qed.

Lemma MakeRepayment_refusals_witness :
  MakeRepayment "L1" 0 ledger_approved = (Err ErrRepaymentNotPositive, ledger_approved) /\
  MakeRepayment "L2" 1 ledger_approved = (Err (ErrNotExist "L2"), ledger_approved) /\
  MakeRepayment "L1" 1 ledger_applied = (Err ErrNotApproved, ledger_applied) /\
  MakeRepayment "L1" 5001 ledger_approved = (Err ErrExceedsOutstanding, ledger_approved).
Proof.
  split; [| split; [| split]].
  - apply (MakeRepayment_refusals ledger_approved "L1" 0). reflexivity.
  - apply (MakeRepayment_refusals ledger_approved "L2" 1); reflexivity.
  - destruct (MakeRepayment_refusals ledger_applied "L1" 1) as (_ & _ & H & _).
    apply (H applied_L1); [reflexivity | reflexivity | discriminate].
  - destruct (MakeRepayment_refusals ledger_approved "L1" 5001) as (_ & _ & _ & H).
    apply (H approved_L1); reflexivity.
Defined.

(** C8.  [CheckLoanBalance] never changes the ledger; it returns the stored
    record of the key when there is one and a [NotFound] error otherwise. *)
Theorem CheckLoanBalance_reads (w : ledger) (loanID : string) :
  (CheckLoanBalance loanID w).2 = w /\
  match w !! loanID with
  | Some doc => (CheckLoanBalance loanID w).1 = Ok (decoded doc)
  | None =>
      (CheckLoanBalance loanID w).1 = Err (ErrNotExist loanID) /\
      kind (ErrNotExist loanID) = NotFound
  end.
Proof.
  rewrite CheckLoanBalance_run. destruct (w !! loanID); repeat split.
Qed.

(** C10.  [ApproveLoan] checks the requested status before it reads the
    ledger: with a status that is neither APPROVED nor REJECTED it fails
    with [ErrInvalidStatus], of kind [InvalidArgument], on every ledger, so
    also when the key holds no record, and never with a [NotFound] error. *)
Theorem ApproveLoan_status_checked_first (w : ledger) (loanID status : string) :
  status <> "APPROVED" -> status <> "REJECTED" ->
  ApproveLoan loanID status w = (Err ErrInvalidStatus, w) /\
  kind ErrInvalidStatus = InvalidArgument /\
  kind ErrInvalidStatus <> NotFound.
Proof.
  intros H1%String.eqb_neq H2%String.eqb_neq.
  rewrite ApproveLoan_run, H1, H2. repeat split. discriminate.
Qed.

Lemma ApproveLoan_status_checked_first_witness :
  (∅ : ledger) !! "L9" = None /\
  ApproveLoan "L9" "PAID" ∅ = (Err ErrInvalidStatus, ∅).
Proof.
  split; [reflexivity |].
  apply (ApproveLoan_status_checked_first ∅ "L9" "PAID"); discriminate.
Defined.

(** ** Accepted transactions and histories *)

Lemma ApplyForLoan_Ok (w w' : ledger) (loanID applicantName : string)
    (loanAmount : float) (termMonths : Z) (interestRate : float) :
  ApplyForLoan loanID applicantName loanAmount termMonths interestRate w = (Ok tt, w') ->
  exists doc,
    w' = <[loanID := doc]> w /\ w !! loanID = None /\
    decoded doc = mkLoan (UTF8.coerceUTF8 loanID) (UTF8.coerceUTF8 applicantName)
                         loanAmount termMonths interestRate loanAmount
                         "APPLIED" [] /\
    (loanAmount <=? 0)%float = false.
Proof.
  rewrite ApplyForLoan_run.
  destruct (loanID =? ""); [discriminate |].
  destruct (applicantName =? ""); [discriminate |].
  destruct (loanAmount <=? 0)%float eqn:Hamt; [discriminate |].
  destruct (termMonths <=? 0)%Z; [discriminate |].
  destruct (interestRate <? 0)%float; [discriminate |].
  destruct (w !! loanID) eqn:Hnone; [discriminate |].
  destruct (Marshal _) as [doc |] eqn:HM; [| discriminate].
  intros [= <-]. exists doc. apply Marshal_Ok in HM. repeat split. exact HM.
Qed.

Lemma ApproveLoan_Ok (w w' : ledger) (loanID status : string) :
  ApproveLoan loanID status w = (Ok tt, w') ->
  exists doc doc',
    w !! loanID = Some doc /\ w' = <[loanID := doc']> w /\
    Status (decoded doc) = "APPLIED" /\
    (status = "APPROVED" \/ status = "REJECTED") /\
    decoded doc' = set_Status status (decoded doc).
Proof.
  rewrite ApproveLoan_run.
  destruct (String.eqb_spec status "APPROVED") as [Ha | Ha]; cbn [negb andb].
  2: destruct (String.eqb_spec status "REJECTED") as [Hr | Hr]; cbn [negb];
       [| discriminate].
  all: destruct (w !! loanID) as [doc |]; [| discriminate].
  all: destruct (String.eqb_spec (Status (decoded doc)) "APPLIED") as [Hs | Hs];
         cbn [negb]; [| discriminate].
  all: destruct (Marshal _) as [doc' |] eqn:HM; [| discriminate].
  all: intros [= <-]; exists doc, doc'; apply Marshal_Ok in HM.
  all: rewrite coerced_set_Status in HM
         by (try apply coerced_decoded; subst status; reflexivity).
  all: repeat split; auto.
Qed.

Lemma MakeRepayment_Ok (w w' : ledger) (loanID : string) (amount : float) :
  MakeRepayment loanID amount w = (Ok tt, w') ->
  exists doc doc',
    w !! loanID = Some doc /\ w' = <[loanID := doc']> w /\
    Status (decoded doc) = "APPROVED" /\
    (amount <=? 0)%float = false /\
    Float64.gtb amount (Outstanding (decoded doc)) = false /\
    decoded doc' = repaid amount (decoded doc).
Proof.
  rewrite MakeRepayment_run.
  destruct (amount <=? 0)%float eqn:Hamt; [discriminate |].
  destruct (w !! loanID) as [doc |]; [| discriminate].
  destruct (String.eqb_spec (Status (decoded doc)) "APPROVED") as [Hs | Hs];
    cbn [negb]; [| discriminate].
  destruct (Float64.gtb _ _) eqn:Hgt; [discriminate |].
  destruct (Marshal _) as [doc' |] eqn:HM; [| discriminate].
  intros [= <-]. exists doc, doc'. apply Marshal_Ok in HM.
  rewrite (coerced_repaid _ _ (coerced_decoded doc)) in HM.
  repeat split; assumption.
Qed.

(** What an invocation does to the ledger: nothing, or one of the three
    accepted writes. *)
Lemma invoke_cases (c : call) (w : ledger) :
  (invoke c w).2 = w \/
  (exists loanID doc, (invoke c w).2 = <[loanID := doc]> w /\
     w !! loanID = None /\
     Status (decoded doc) = "APPLIED" /\
     Repayments (decoded doc) = [] /\
     Outstanding (decoded doc) = LoanAmount (decoded doc) /\
     (LoanAmount (decoded doc) <=? 0)%float = false /\
     exists applicantName termMonths interestRate,
       c = CallApplyForLoan loanID applicantName
             (LoanAmount (decoded doc)) termMonths interestRate) \/
  (exists loanID status doc doc',
     c = CallApproveLoan loanID status /\
     (invoke c w).2 = <[loanID := doc']> w /\ w !! loanID = Some doc /\
     Status (decoded doc) = "APPLIED" /\
     (status = "APPROVED" \/ status = "REJECTED") /\
     decoded doc' = set_Status status (decoded doc)) \/
  (exists loanID amount doc doc',
     c = CallMakeRepayment loanID amount /\
     (invoke c w).2 = <[loanID := doc']> w /\ w !! loanID = Some doc /\
     Status (decoded doc) = "APPROVED" /\
     (amount <=? 0)%float = false /\
     Float64.gtb amount (Outstanding (decoded doc)) = false /\
     decoded doc' = repaid amount (decoded doc)).
Proof.
  destruct (invoke c w).1 as [e |] eqn:He.
  { left. eapply invoke_error_unchanged, He. }
  destruct c; cbn [invoke] in *; unfold outcome in *; cbn [fst snd] in *.
  - destruct (ApplyForLoan _ _ _ _ _ _) as [[[] | e] w'] eqn:Hrun;
      [| discriminate He].
    apply ApplyForLoan_Ok in Hrun as (doc & -> & Hnone & Hdoc & Hamt).
    right; left. exists loanID, doc. rewrite Hdoc; cbn. repeat split; eauto.
  - destruct (ApproveLoan _ _ _) as [[[] | e] w'] eqn:Hrun; [| discriminate He].
    apply ApproveLoan_Ok in Hrun as (doc & doc' & H).
    right; right; left. exists loanID, status, doc, doc'. tauto.
  - destruct (MakeRepayment _ _ _) as [[[] | e] w'] eqn:Hrun; [| discriminate He].
    apply MakeRepayment_Ok in Hrun as (doc & doc' & H).
    right; right; right. exists loanID, repaymentAmount, doc, doc'. tauto.
  - left. rewrite CheckLoanBalance_run. destruct (w !! loanID); reflexivity.
Qed.

(** Induction over the records of a history: a property of records that
    holds of every record as [ApplyForLoan] stores it, and is kept by the
    update of [ApproveLoan] and by that of [MakeRepayment] whenever their
    checks pass, holds of every record of every ledger of the history. *)
Lemma history_records (allowed : call -> Prop) (P : Loan -> Prop) :
  (forall loan loanID applicantName termMonths interestRate,
     allowed (CallApplyForLoan loanID applicantName (LoanAmount loan)
                               termMonths interestRate) ->
     Status loan = "APPLIED" -> Repayments loan = [] ->
     Outstanding loan = LoanAmount loan ->
     (LoanAmount loan <=? 0)%float = false ->
     encodable loan = true -> P loan) ->
  (forall loanID status loan,
     allowed (CallApproveLoan loanID status) ->
     P loan -> Status loan = "APPLIED" ->
     status = "APPROVED" \/ status = "REJECTED" ->
     P (set_Status status loan)) ->
  (forall loanID amount loan,
     allowed (CallMakeRepayment loanID amount) ->
     P loan -> Status loan = "APPROVED" ->
     (amount <=? 0)%float = false ->
     Float64.gtb amount (Outstanding loan) = false ->
     encodable (repaid amount loan) = true ->
     P (repaid amount loan)) ->
  forall w, history allowed w ->
  forall loanID doc, w !! loanID = Some doc -> P (decoded doc).
Proof.
  intros Happly Happrove Hrepay w Hw.
  induction Hw as [| c w Hw IH Hc]; intros key doc Hdoc.
  { rewrite lookup_empty in Hdoc. discriminate. }
  destruct (invoke_cases c w) as
    [Heq | [(loanID & new & Heq & Hnone & Hst & Hrep & Hout & Hamt & name & term & rate & ->)
         | [(loanID & status & old & new & -> & Heq & Hold & Hst & Hdec & Hnew)
         | (loanID & amount & old & new & -> & Heq & Hold & Hst & Hamt & Hgt & Hnew)]]];
    rewrite Heq in Hdoc.
  - eauto.
  - apply lookup_insert_Some in Hdoc as [[_ <-] | [_ Hdoc]]; [| eauto].
    eapply Happly; eauto. apply Is_true_true, decoded_encodable.
  - apply lookup_insert_Some in Hdoc as [[_ <-] | [_ Hdoc]]; [| eauto].
    rewrite Hnew. eapply Happrove; eauto.
  - apply lookup_insert_Some in Hdoc as [[_ <-] | [_ Hdoc]]; [| eauto].
    rewrite Hnew. eapply Hrepay; eauto.
    rewrite <- Hnew. apply Is_true_true, decoded_encodable.
Qed.

(** Every record of a reachable ledger follows the lifecycle. *)
Lemma reachable_lifecycle (w : ledger) (loanID : string) (doc : json) :
  reachable w -> w !! loanID = Some doc -> lifecycle (decoded doc).
Proof.
  intros Hw. revert loanID doc.
  apply (history_records (fun _ => True) lifecycle); [| | | exact Hw].
  - intros loan _ _ _ _ _ Hst _ Hout Hamt _. right. rewrite Hout. auto.
  - intros _ status loan _ [[Hp _] | [_ Hout]] Hst Hdec; [congruence |].
    right. cbn. split; [tauto | exact Hout].
  - intros _ amount loan _ _ Hst Hamt Hgt _. unfold repaid, lifecycle.
    cbn [Outstanding set_Outstanding set_Repayments].
    destruct (Outstanding loan - amount <=? 0)%float eqn:Hz; cbn; rewrite ?Hz.
    + left. split; [reflexivity |]. apply sub_le_zero_eq; assumption.
    + right. auto.
Qed.

Lemma lifecycle_paid_iff (loan : Loan) :
  lifecycle loan ->
  (Outstanding loan =? 0)%float = true <-> Status loan = "PAID".
Proof.
  intros [[Hp Hz] | [Hs Hz]].
  - rewrite Hz. split; [intros _; exact Hp | reflexivity].
  - split.
    + intros He%eqb_leb. congruence.
    + intros Hp. rewrite Hp in Hs. destruct Hs as [? | [? | ?]]; discriminate.
Qed.

(** C3.  In every reachable ledger, a record has [Outstanding == 0] if and
    only if its status is PAID.  In particular a record just stored by
    [ApplyForLoan] has status APPLIED and a balance above zero; and when an
    invocation leaves a PAID record under a key that held none, or held one
    that was not PAID, the invocation is a [MakeRepayment] on that key and
    it leaves [Outstanding == 0]. *)
Theorem paid_iff_nothing_outstanding (w : ledger) :
  reachable w ->
  (forall loanID doc,
     w !! loanID = Some doc ->
     (Outstanding (decoded doc) =? 0)%float = true <-> Status (decoded doc) = "PAID")
  /\
  (forall loanID applicantName loanAmount termMonths interestRate w',
     ApplyForLoan loanID applicantName loanAmount termMonths interestRate w
       = (Ok tt, w') ->
     exists doc,
       w' !! loanID = Some doc /\ Status (decoded doc) = "APPLIED" /\
       (0 <? Outstanding (decoded doc))%float = true)
  /\
  (forall c loanID doc',
     (invoke c w).2 !! loanID = Some doc' ->
     Status (decoded doc') = "PAID" ->
     (forall doc, w !! loanID = Some doc -> Status (decoded doc) <> "PAID") ->
     (exists amount, c = CallMakeRepayment loanID amount) /\
     (Outstanding (decoded doc') =? 0)%float = true).
Proof.
  intros Hw. split; [| split].
  - intros loanID doc Hdoc. eapply lifecycle_paid_iff, reachable_lifecycle; eauto.
  - intros loanID name amt term rate w' Hrun.
    apply ApplyForLoan_Ok in Hrun as (doc & -> & _ & Hdoc & Hamt).
    exists doc. rewrite lookup_insert_eq, Hdoc. cbn. repeat split.
    apply not_le_zero_gt; [| exact Hamt].
    pose proof (decoded_encodable doc) as He. rewrite Hdoc in He.
    apply Is_true_true in He. unfold encodable in He. cbn in He.
    apply andb_prop in He as [He _]. apply andb_prop in He as [He _].
    apply andb_prop in He as [He _]. exact He.
  - intros c loanID doc' Hdoc' Hpaid Hbefore.
    assert (reachable (invoke c w).2) as Hw' by (constructor; auto).
    split; [| eapply lifecycle_paid_iff, Hpaid; eapply reachable_lifecycle; eauto].
    destruct (invoke_cases c w) as
      [Heq | [(key0 & new & Heq & _ & Hst & _)
           | [(key & status & old & new & _ & Heq & Hold & _ & Hdec & Hnew)
           | (key & amount & old & new & -> & Heq & Hold & _)]]];
      rewrite Heq in Hdoc'.
    + exfalso. eapply Hbefore; eauto.
    + exfalso. apply lookup_insert_Some in Hdoc' as [[_ <-] | [_ Hdoc']].
      * congruence.
      * eapply Hbefore; eauto.
    + exfalso. apply lookup_insert_Some in Hdoc' as [[_ <-] | [_ Hdoc']].
      * rewrite Hnew in Hpaid. cbn in Hpaid. destruct Hdec; congruence.
      * eapply Hbefore; eauto.
    + apply lookup_insert_Some in Hdoc' as [[<- _] | [_ Hdoc']].
      * eauto.
      * exfalso. eapply Hbefore; eauto.
Qed.

Lemma history_run (allowed : call -> Prop) (cs : list call) (w : ledger) :
  history allowed w -> Forall allowed cs -> history allowed (run cs w).
Proof.
  intros Hw Hcs. revert w Hw.
  induction Hcs as [| c cs Hc _ IH]; intros w Hw; cbn; [exact Hw |].
  apply IH. constructor; assumption.
Qed.

Lemma paid_iff_nothing_outstanding_witness :
  (Outstanding (decoded paid_L1) =? 0)%float = true
  <-> Status (decoded paid_L1) = "PAID".
Proof.
  assert (reachable (run scenario_paid ∅)) as Hreach
    by (apply history_run; repeat constructor).
  destruct (paid_iff_nothing_outstanding _ Hreach) as [H _].
  apply (H "L1" paid_L1). reflexivity.
Defined.

(** ** The balance equation *)

(** Records with whole amounts satisfy the balance equation. *)
Lemma whole_record_balanced (loan : Loan) :
  whole_record loan -> balanced loan = true.
Proof.
  intros (P & O & rs & HP & HO & Hrs & Hsum). unfold balanced, Float64.sum.
  eapply whole_eqb; [| exact HP].
  assert (Float64.whole 0%float 0) as H0
    by (split; [split; [lia | reflexivity] | reflexivity]).
  pose proof HP as [HPlt _]. pose proof HO as [HOlt _].
  pose proof (whole_sum _ _ _ _ Hrs H0) as Hacc. cbn [Z.add] in Hacc.
  rewrite <- Hsum. apply whole_add; [apply Hacc | exact HO |]; lia.
Qed.

Lemma whole_record_balanced_exactly (loan : Loan) :
  whole_record loan -> balanced_exactly loan = Some true.
Proof.
  intros (P & O & rs & HP & HO & Hrs & Hsum). unfold balanced_exactly.
  rewrite (units_sum_whole _ _ Hrs), (units_whole _ _ HO), (units_whole _ _ HP).
  cbn. f_equal. apply Z.eqb_eq. rewrite <- Hsum. lia.
Qed.

(** Every record of a history with whole amounts has whole amounts. *)
Lemma whole_history_records (w : ledger) (loanID : string) (doc : json) :
  history whole_amounts w -> w !! loanID = Some doc -> whole_record (decoded doc).
Proof.
  intros Hw. revert loanID doc.
  apply (history_records whole_amounts whole_record); [| | | exact Hw].
  - intros loan _ _ _ _ [n Hn] _ Hrep Hout _ _.
    exists n, n, []. rewrite Hout, Hrep. repeat split; try apply Hn; auto.
  - intros _ status loan _ Hloan _ _. exact Hloan.
  - intros _ amount loan [n Hn] (P & O & rs & HP & HO & Hrs & Hsum) _ _ Hgt _.
    pose proof (whole_sub _ _ _ _ HO Hn Hgt) as Hsub.
    exists P, (O - n), (rs ++ [n])%list.
    assert (Outstanding (repaid amount loan) = (Outstanding loan - amount)%float
            /\ Repayments (repaid amount loan) = (Repayments loan ++ [amount])%list
            /\ LoanAmount (repaid amount loan) = LoanAmount loan) as (-> & -> & ->).
    { unfold repaid. destruct (_ <=? _)%float; repeat split. }
    repeat split; try apply HP; try apply Hsub.
    + apply Forall2_app; [exact Hrs | repeat constructor; apply Hn].
    + rewrite fold_right_app. cbn [fold_right]. rewrite Z.add_0_r.
      clear -Hsum. revert Hsum. generalize P. induction rs as [| r rs IH]; intros Q HQ; cbn in *.
      * lia.
      * specialize (IH (Q - r) ltac:(lia)). lia.
Qed.

(** C1, as the code has it.  In every ledger built by invocations whose
    principals and repayment amounts are whole numbers below [2^53], every
    record satisfies [sum(repayments) + outstanding == principal], both as
    float64 arithmetic evaluates it and on the numbers that the floats
    denote: no operation on such amounts rounds. *)
Theorem whole_amounts_balanced (w : ledger) (loanID : string) (doc : json) :
  history whole_amounts w ->
  w !! loanID = Some doc ->
  balanced (decoded doc) = true /\ balanced_exactly (decoded doc) = Some true.
Proof.
  intros Hw Hdoc. pose proof (whole_history_records w loanID doc Hw Hdoc).
  split; [apply whole_record_balanced | apply whole_record_balanced_exactly];
    assumption.
Qed.

Lemma whole_amounts_balanced_witness :
  balanced (decoded paid_L1) = true /\
  balanced_exactly (decoded paid_L1) = Some true.
Proof.
  apply (whole_amounts_balanced (run scenario_paid ∅) "L1" paid_L1);
    [| reflexivity].
  apply history_run; [constructor |].
  repeat constructor; cbn; (exists 5000 + exists 2000 + exists 3000);
    (split; [split; [lia | reflexivity] | reflexivity]).
Defined.

(** C1, as stated, fails on the code.  A loan of 0.9 is applied for and
    approved, and 0.2 is repaid; the three invocations are accepted.  The
    stored balance is the float64 subtraction of the two, rounded, and 0.2
    plus that balance is not the principal, neither as float64 arithmetic
    evaluates the sum nor on the numbers denoted. *)
Lemma balance_lost_to_rounding :
  errors scenario_rounded ∅ = [None; None; None] /\
  decoded <$> (run scenario_rounded ∅ !! "L1")
    = Some (mkLoan "L1" "Jane Doe" 0x1.ccccccccccccdp-1 12 5.5
                   0x1.6666666666666p-1 "APPROVED" [0x1.999999999999ap-3%float]) /\
  (balanced <$> (decoded <$> (run scenario_rounded ∅ !! "L1"))) = Some false /\
  (balanced_exactly <$> (decoded <$> (run scenario_rounded ∅ !! "L1")))
    = Some (Some false).
Proof.
  repeat split.
Qed.

(** ** Further properties of the transactions *)

(** Every invocation writes under its own key only. *)
Lemma invoke_other_key (c : call) (w : ledger) (key : string) :
  key <> call_key c -> (invoke c w).2 !! key = w !! key.
Proof.
  intros Hkey.
  destruct (invoke_cases c w) as
    [-> | [(key0 & new & -> & _ & _ & _ & _ & _ & name & term & rate & ->)
        | [(loanID & status & old & new & -> & -> & _)
        | (loanID & amount & old & new & -> & -> & _)]]];
    [reflexivity | | |]; apply lookup_insert_ne; cbn in Hkey; congruence.
Qed.

(** A stored record stays stored, and an invocation makes of it what
    [evolves] allows. *)
Lemma invoke_evolves (c : call) (w : ledger) (key : string) (doc : json) :
  w !! key = Some doc ->
  exists doc',
    (invoke c w).2 !! key = Some doc' /\ evolves (decoded doc) (decoded doc').
Proof.
  intros Hdoc.
  destruct (invoke_cases c w) as
    [-> | [(key0 & new & -> & Hnone & _)
        | [(loanID & status & old & new & _ & -> & Hold & Hst & Hdec & Hnew)
        | (loanID & amount & old & new & _ & -> & Hold & Hst & Hamt & Hgt & Hnew)]]].
  - exists doc. split; [exact Hdoc | constructor].
  - exists doc. split; [| constructor].
    rewrite lookup_insert_ne; [exact Hdoc | congruence].
  - destruct (decide (loanID = key)) as [-> | Hne].
    + exists new. rewrite lookup_insert_eq. split; [reflexivity |].
      assert (old = doc) as -> by congruence. rewrite Hnew. constructor; assumption.
    + exists doc. rewrite lookup_insert_ne by exact Hne. split; [exact Hdoc | constructor].
  - destruct (decide (loanID = key)) as [-> | Hne].
    + exists new. rewrite lookup_insert_eq. split; [reflexivity |].
      assert (old = doc) as -> by congruence. rewrite Hnew.
      constructor; try assumption.
      rewrite <- Hnew. apply Is_true_true, decoded_encodable.
    + exists doc. rewrite lookup_insert_ne by exact Hne. split; [exact Hdoc | constructor].
Qed.

Lemma run_evolves (cs : list call) (w : ledger) (key : string) (doc : json) :
  w !! key = Some doc ->
  exists doc',
    run cs w !! key = Some doc' /\ rtc evolves (decoded doc) (decoded doc').
Proof.
  revert w doc. induction cs as [| c cs IH]; intros w doc Hdoc; cbn.
  - exists doc. split; [exact Hdoc | constructor].
  - destruct (invoke_evolves c w key doc Hdoc) as (mid & Hmid & Hstep).
    destruct (IH _ _ Hmid) as (doc' & Hdoc' & Hrest).
    exists doc'. split; [exact Hdoc' | econstructor; eassumption].
Qed.

Lemma repaid_fields (amount : float) (loan : Loan) :
  LoanID (repaid amount loan) = LoanID loan /\
  ApplicantName (repaid amount loan) = ApplicantName loan /\
  LoanAmount (repaid amount loan) = LoanAmount loan /\
  TermMonths (repaid amount loan) = TermMonths loan /\
  InterestRate (repaid amount loan) = InterestRate loan /\
  Outstanding (repaid amount loan) = (Outstanding loan - amount)%float /\
  Repayments (repaid amount loan) = (Repayments loan ++ [amount])%list /\
  (Status (repaid amount loan) = Status loan \/ Status (repaid amount loan) = "PAID").
Proof.
  unfold repaid. cbn [Outstanding set_Outstanding set_Repayments].
  destruct (_ <=? _)%float; cbn; repeat split; auto.
Qed.

(** X1.  Whatever error a transaction returns, it returns the ledger as it
    received it: no check is made after the write. *)
Theorem refused_transactions_write_nothing (w : ledger) (e : error) :
  (forall loanID applicantName loanAmount termMonths interestRate,
     (ApplyForLoan loanID applicantName loanAmount termMonths interestRate w).1 = Err e ->
     (ApplyForLoan loanID applicantName loanAmount termMonths interestRate w).2 = w) /\
  (forall loanID status,
     (ApproveLoan loanID status w).1 = Err e -> (ApproveLoan loanID status w).2 = w) /\
  (forall loanID amount,
     (MakeRepayment loanID amount w).1 = Err e -> (MakeRepayment loanID amount w).2 = w) /\
  (forall loanID,
     (CheckLoanBalance loanID w).1 = Err e -> (CheckLoanBalance loanID w).2 = w).
Proof.
  repeat split; intros.
  - apply (invoke_error_unchanged
             (CallApplyForLoan loanID applicantName loanAmount termMonths interestRate) w e).
    cbn. unfold outcome. cbn. rewrite H. reflexivity.
  - apply (invoke_error_unchanged (CallApproveLoan loanID status) w e).
    cbn. unfold outcome. cbn. rewrite H. reflexivity.
  - apply (invoke_error_unchanged (CallMakeRepayment loanID amount) w e).
    cbn. unfold outcome. cbn. rewrite H. reflexivity.
  - apply (invoke_error_unchanged (CallCheckLoanBalance loanID) w e).
    cbn. unfold outcome. cbn. rewrite H. reflexivity.
Qed.

Lemma refused_transactions_write_nothing_witness :
  (MakeRepayment "L1" nan ledger_approved).1 = Err ErrUnsupportedValue /\
  (MakeRepayment "L1" nan ledger_approved).2 = ledger_approved.
Proof.
  split; [reflexivity |].
  apply (refused_transactions_write_nothing ledger_approved ErrUnsupportedValue).
  reflexivity.
Defined.

(** X2.  A key is affected only by the invocations that name it: after
    any sequence of invocations on other keys, the key holds what it held
    before (a record, or nothing). *)
Theorem other_keys_untouched (cs : list call) (w : ledger) (key : string) :
  Forall (fun c => call_key c <> key) cs -> run cs w !! key = w !! key.
Proof.
  intros Hcs. revert w.
  induction Hcs as [| c cs Hc _ IH]; intros w; cbn; [reflexivity |].
  rewrite IH. apply invoke_other_key. congruence.
Qed.

Lemma other_keys_untouched_witness :
  run [CallApplyForLoan "L2" "John Doe" 700 6 4; CallApproveLoan "L2" "REJECTED";
       CallMakeRepayment "L3" 5] ledger_approved !! "L1"
  = Some approved_L1.
Proof.
  rewrite (other_keys_untouched _ ledger_approved "L1"); [reflexivity |].
  repeat constructor; discriminate.
Defined.

Lemma evolves_fields (old new : Loan) :
  rtc evolves old new ->
  LoanID new = LoanID old /\ ApplicantName new = ApplicantName old /\
  LoanAmount new = LoanAmount old /\ TermMonths new = TermMonths old /\
  InterestRate new = InterestRate old.
Proof.
  induction 1 as [| old mid new Hstep _ IH]; [repeat split |].
  destruct IH as (-> & -> & -> & -> & ->).
  destruct Hstep as [| status _ _ | amount _ _ _ _]; [repeat split .. |].
  pose proof (repaid_fields amount old). tauto.
Qed.

(** X3.  No sequence of invocations deletes a record or changes its
    [LoanID], [ApplicantName], [LoanAmount], [TermMonths] or
    [InterestRate]: these are as [ApplyForLoan] stored them. *)
Theorem records_persist (cs : list call) (w : ledger) (key : string) (doc : json) :
  w !! key = Some doc ->
  exists doc',
    run cs w !! key = Some doc' /\
    LoanID (decoded doc') = LoanID (decoded doc) /\
    ApplicantName (decoded doc') = ApplicantName (decoded doc) /\
    LoanAmount (decoded doc') = LoanAmount (decoded doc) /\
    TermMonths (decoded doc') = TermMonths (decoded doc) /\
    InterestRate (decoded doc') = InterestRate (decoded doc).
Proof.
  intros Hdoc. destruct (run_evolves cs w key doc Hdoc) as (doc' & Hdoc' & Hrtc).
  exists doc'. split; [exact Hdoc' | apply evolves_fields, Hrtc].
Qed.

Lemma records_persist_witness :
  exists doc',
    run scenario_paid ledger_applied !! "L1" = Some doc' /\
    LoanAmount (decoded doc') = 5000%float /\
    ApplicantName (decoded doc') = "Jane Doe".
Proof.
  destruct (records_persist scenario_paid ledger_applied "L1" applied_L1 eq_refl)
    as (doc' & Hdoc' & _ & Hname & Hamt & _).
  exists doc'. repeat split; assumption.
Defined.

Lemma evolves_repayments (old new : Loan) :
  rtc evolves old new -> Repayments old `prefix_of` Repayments new.
Proof.
  induction 1 as [| old mid new Hstep _ IH]; [reflexivity |].
  etrans; [| exact IH].
  destruct Hstep as [| status _ _ | amount _ _ _ _]; [reflexivity .. |].
  destruct (repaid_fields amount old) as (_ & _ & _ & _ & _ & _ & -> & _).
  apply prefix_app_r. reflexivity.
Qed.

(** X4.  [Repayments] is append-only: after any sequence of invocations the
    repayments of a record begin with the repayments it had, in the same
    order. *)
Theorem repayments_append_only (cs : list call) (w : ledger) (key : string)
    (doc : json) :
  w !! key = Some doc ->
  exists doc',
    run cs w !! key = Some doc' /\
    Repayments (decoded doc) `prefix_of` Repayments (decoded doc').
Proof.
  intros Hdoc. destruct (run_evolves cs w key doc Hdoc) as (doc' & Hdoc' & Hrtc).
  exists doc'. split; [exact Hdoc' | apply evolves_repayments, Hrtc].
Qed.

Lemma repayments_append_only_witness :
  exists doc',
    run [CallMakeRepayment "L1" 3000] (run [CallMakeRepayment "L1" 2000] ledger_approved)
      !! "L1" = Some doc' /\
    [2000%float] `prefix_of` Repayments (decoded doc').
Proof.
  apply (repayments_append_only [CallMakeRepayment "L1" 3000]
           (run [CallMakeRepayment "L1" 2000] ledger_approved) "L1"
           (mkJSON (mkLoan "L1" "Jane Doe" 5000 12 5.5 3000 "APPROVED" [2000%float]) I I)).
  reflexivity.
Defined.

Lemma evolves_terminal (old new : Loan) :
  rtc evolves old new ->
  Status old <> "APPLIED" -> Status old <> "APPROVED" -> new = old.
Proof.
  induction 1 as [| old mid new Hstep _ IH]; intros Ha Hb; [reflexivity |].
  destruct Hstep as [| status Hst _ | amount Hst _ _ _]; [auto | congruence ..].
Qed.

(** X5.  REJECTED and PAID are final: a record whose status is neither
    APPLIED nor APPROVED is left exactly as it is by every sequence of
    invocations. *)
Theorem settled_records_are_final (cs : list call) (w : ledger) (key : string)
    (doc : json) :
  w !! key = Some doc ->
  Status (decoded doc) <> "APPLIED" -> Status (decoded doc) <> "APPROVED" ->
  run cs w !! key = Some doc.
Proof.
  intros Hdoc Ha Hb. destruct (run_evolves cs w key doc Hdoc) as (doc' & -> & Hrtc).
  f_equal. apply json_eq. apply evolves_terminal; assumption.
Qed.

Lemma settled_records_are_final_witness :
  run [CallMakeRepayment "L1" 1; CallApproveLoan "L1" "APPROVED";
       CallApplyForLoan "L1" "Jane Doe" 5000 12 5.5]
      (run scenario_paid ∅) !! "L1" = Some paid_L1.
Proof.
  apply (settled_records_are_final _ (run scenario_paid ∅) "L1" paid_L1);
    [reflexivity | discriminate | discriminate].
Defined.

(** X6.  The status of a stored record moves only along APPLIED to APPROVED,
    APPLIED to REJECTED and APPROVED to PAID: whatever the invocation, the
    status after it is the status before it or one of these three moves. *)
Theorem status_moves_forward (c : call) (w : ledger) (key : string) (doc : json) :
  w !! key = Some doc ->
  exists doc',
    (invoke c w).2 !! key = Some doc' /\
    (Status (decoded doc') = Status (decoded doc) \/
     (Status (decoded doc) = "APPLIED" /\ Status (decoded doc') = "APPROVED") \/
     (Status (decoded doc) = "APPLIED" /\ Status (decoded doc') = "REJECTED") \/
     (Status (decoded doc) = "APPROVED" /\ Status (decoded doc') = "PAID")).
Proof.
  intros Hdoc. destruct (invoke_evolves c w key doc Hdoc) as (doc' & Hdoc' & Hstep).
  exists doc'. split; [exact Hdoc' |].
  destruct Hstep as [| status Hst [-> | ->] | amount Hst _ _ _]; auto.
  destruct (repaid_fields amount (decoded doc)) as (_ & _ & _ & _ & _ & _ & _ & [-> | ->]);
    auto.
Qed.

Lemma status_moves_forward_witness :
  exists doc',
    (invoke (CallMakeRepayment "L1" 5000) ledger_approved).2 !! "L1" = Some doc' /\
    Status (decoded doc') = "PAID".
Proof.
  destruct (status_moves_forward (CallMakeRepayment "L1" 5000) ledger_approved
              "L1" approved_L1 eq_refl) as (doc' & Hdoc' & _).
  exists doc'. split; [exact Hdoc' |].
  assert (Some doc' = Some (mkJSON (repaid 5000 (decoded approved_L1)) I I)) as [= ->]
    by (rewrite <- Hdoc'; reflexivity).
  reflexivity.
Defined.

Lemma evolves_not_applied (old new : Loan) :
  rtc evolves old new -> Status old <> "APPLIED" -> Status new <> "APPLIED".
Proof.
  induction 1 as [| old mid new Hstep _ IH]; intros Ha; [exact Ha |].
  apply IH. destruct Hstep as [| status Hst _ | amount Hst _ _ _];
    [exact Ha | congruence |].
  destruct (repaid_fields amount old) as (_ & _ & _ & _ & _ & _ & _ & [-> | ->]);
    [exact Ha | discriminate].
Qed.

(** X7.  A decision is taken once: when the record of a key is no longer
    APPLIED, [ApproveLoan] on that key fails after every sequence of
    invocations, whatever status it is given, and changes nothing. *)
Theorem decisions_are_final (cs : list call) (w : ledger) (loanID status : string)
    (doc : json) :
  w !! loanID = Some doc ->
  Status (decoded doc) <> "APPLIED" ->
  exists e,
    ApproveLoan loanID status (run cs w) = (Err e, run cs w) /\
    (e = ErrNotApplied \/ e = ErrInvalidStatus).
Proof.
  intros Hdoc Hst. destruct (run_evolves cs w loanID doc Hdoc) as (doc' & Hdoc' & Hrtc).
  pose proof (evolves_not_applied _ _ Hrtc Hst) as Hst'%String.eqb_neq.
  rewrite ApproveLoan_run, Hdoc', Hst'. cbn [negb].
  destruct (_ && _); eexists; split; eauto.
Qed.

Lemma decisions_are_final_witness :
  exists e,
    ApproveLoan "L1" "REJECTED" (run [CallMakeRepayment "L1" 2000] ledger_approved)
      = (Err e, run [CallMakeRepayment "L1" 2000] ledger_approved) /\
    (e = ErrNotApplied \/ e = ErrInvalidStatus).
Proof.
  apply (decisions_are_final [CallMakeRepayment "L1" 2000] ledger_approved
           "L1" "REJECTED" approved_L1); [reflexivity | discriminate].
Defined.

(** ** Further binary64 facts *)

(** A finite float that fails Go's [x < 0] is zero or above. *)
Lemma not_lt_zero_ge (x : float) :
  Float64.finite x = true ->
  PrimFloat.ltb x 0%float = false -> PrimFloat.leb 0%float x = true.
Proof.
  intros Hf%is_finite_not_nan. revert Hf.
  rewrite FloatAxioms.leb_spec, FloatAxioms.ltb_spec.
  change (Prim2SF 0%float) with (S754_zero false).
  destruct (Prim2SF x) as [s | [|] | | [|] m e]; cbn; congruence.
Qed.

Lemma gt_zero_ge (x : float) :
  PrimFloat.ltb 0%float x = true -> PrimFloat.leb 0%float x = true.
Proof.
  rewrite FloatAxioms.leb_spec, FloatAxioms.ltb_spec.
  unfold SFleb, SFltb. destruct (SFcompare _ _) as [[| |] |]; congruence.
Qed.

(** The subtraction of [MakeRepayment] never gives a result below zero. *)
Lemma SFsub_not_negative (a b : spec_float) :
  valid_binary a = true -> valid_binary b = true ->
  SFleb a (S754_zero false) = false ->
  SFltb b a = false ->
  Float64.not_negative (SF64sub b a).
Proof.
  intros Ha Hb Hpos Hnlt.
  destruct a as [sa | sa | | sa ma ea], b as [sb | sb | | sb mb eb];
    try destruct sa; try destruct sb; try discriminate; try exact I;
    try reflexivity.
  unfold SF64sub, SFsub. apply binary_normalize_sign.
  cbn [cond_Zopp]. cbn [valid_binary] in Ha, Hb.
  pose proof (aligned_mantissas ma mb ea eb Ha Hb Hnlt). lia.
Qed.

Lemma sub_not_below_zero (a b : float) :
  PrimFloat.leb a 0%float = false ->
  Float64.gtb a b = false ->
  Float64.finite (b - a) = true ->
  PrimFloat.leb 0%float (b - a) = true.
Proof.
  unfold Float64.gtb. intros Ha Hab Hf%is_finite_not_nan. revert Ha Hab Hf.
  rewrite !FloatAxioms.leb_spec, FloatAxioms.ltb_spec, sub_spec.
  change (Prim2SF 0%float) with (S754_zero false).
  intros Ha Hab Hf.
  pose proof (SFsub_not_negative _ _ (Prim2SF_valid a) (Prim2SF_valid b) Ha Hab) as Hn.
  destruct (SF64sub _ _) as [s | s | | s m e]; cbn in *; subst; congruence.
Qed.

(** A finite float less itself is [+0]. *)
Lemma sub_diag (x : float) :
  Float64.finite x = true -> (x - x)%float = 0%float.
Proof.
  intros Hx. apply Prim2SF_inj. rewrite sub_spec.
  change (Prim2SF 0%float) with (S754_zero false).
  pose proof (is_finite_not_nan x Hx) as Hnan. revert Hx Hnan.
  unfold Float64.finite, PrimFloat.is_finite, PrimFloat.is_infinity.
  rewrite FloatAxioms.eqb_spec, abs_spec.
  change (Prim2SF infinity) with (S754_infinity false).
  destruct (Prim2SF x) as [[|] | [|] | | s m e]; cbn; try congruence;
    try (rewrite orb_true_r; discriminate).
  intros _ _. unfold SF64sub, SFsub. rewrite Z.sub_diag. reflexivity.
Qed.

Lemma encodable_fields (loan : Loan) :
  encodable loan = true ->
  Float64.finite (LoanAmount loan) = true /\
  Float64.finite (InterestRate loan) = true /\
  Float64.finite (Outstanding loan) = true /\
  Forall (fun r => Float64.finite r = true) (Repayments loan).
Proof.
  unfold encodable. rewrite !andb_true_iff, forallb_forall, Forall_forall.
  intros [[[Ha Hr] Ho] Hall]. repeat split; try assumption.
  intros r Hin. apply Hall. apply list_elem_of_In. exact Hin.
Qed.

Lemma encodable_intro (loan : Loan) :
  Float64.finite (LoanAmount loan) = true ->
  Float64.finite (InterestRate loan) = true ->
  Float64.finite (Outstanding loan) = true ->
  Forall (fun r => Float64.finite r = true) (Repayments loan) ->
  encodable loan = true.
Proof.
  intros H1 H2 H3 H4. unfold encodable. rewrite H1, H2, H3. cbn.
  apply forallb_forall. intros r Hr. rewrite Forall_forall in H4. apply H4.
  apply list_elem_of_In. exact Hr.
Qed.

Lemma ApplyForLoan_Ok_checks (w w' : ledger) (loanID applicantName : string)
    (loanAmount : float) (termMonths : Z) (interestRate : float) :
  ApplyForLoan loanID applicantName loanAmount termMonths interestRate w = (Ok tt, w') ->
  loanID <> "" /\ applicantName <> "" /\ (loanAmount <=? 0)%float = false /\
  (0 < termMonths)%Z /\ (interestRate <? 0)%float = false.
Proof.
  rewrite ApplyForLoan_run.
  destruct (String.eqb_spec loanID ""); [discriminate |].
  destruct (String.eqb_spec applicantName ""); [discriminate |].
  destruct (loanAmount <=? 0)%float; [discriminate |].
  destruct (Z.leb_spec termMonths 0); [discriminate |].
  destruct (interestRate <? 0)%float; [discriminate |].
  intros _. repeat split; assumption.
Qed.

(** X8.  In every reachable ledger the [LoanID] of a record is the key it
    is stored under, as JSON writes it (coerced to valid UTF-8); the key is
    not empty, and the record has a non-empty [ApplicantName], a
    [LoanAmount] above zero, [TermMonths] above zero and an [InterestRate]
    of zero or more: what [ApplyForLoan] checked stays true. *)
Theorem reachable_records_checked (w : ledger) (key : string) (doc : json) :
  reachable w -> w !! key = Some doc ->
  LoanID (decoded doc) = UTF8.coerceUTF8 key /\ key <> "" /\ ApplicantName (decoded doc) <> "" /\
  (0 <? LoanAmount (decoded doc))%float = true /\ (0 < TermMonths (decoded doc))%Z /\
  (0 <=? InterestRate (decoded doc))%float = true.
Proof.
  intros Hw. revert key doc. fold checked_fields.
  induction Hw as [| c w Hw IH _]; intros key doc Hdoc.
  { rewrite lookup_empty in Hdoc. discriminate. }
  destruct (w !! key) as [old |] eqn:Hold.
  - destruct (invoke_evolves c w key old Hold) as (doc' & Hdoc' & Hstep).
    assert (doc' = doc) as -> by congruence.
    destruct (evolves_fields _ _ (rtc_once _ _ Hstep)) as (H1 & H2 & H3 & H4 & H5).
    specialize (IH key old Hold). unfold checked_fields in *.
    rewrite H1, H2, H3, H4, H5. exact IH.
  - destruct (decide (key = call_key c)) as [-> | Hne];
      [| rewrite invoke_other_key in Hdoc by exact Hne; congruence].
    destruct c as [loanID name amt term rate | loanID status | loanID amount | loanID];
      cbn [call_key invoke outcome fst snd] in *.
    + destruct (ApplyForLoan loanID name amt term rate w) as [[[] | e] w'] eqn:Hrun.
      * pose proof (ApplyForLoan_Ok_checks _ _ _ _ _ _ _ Hrun) as (Hid & Hname & Hamt & Hterm & Hrate).
        apply ApplyForLoan_Ok in Hrun as (new & -> & _ & Hnew & _).
        cbn in Hdoc. rewrite lookup_insert_eq in Hdoc. injection Hdoc as <-.
        pose proof (decoded_encodable new) as Henc%Is_true_true%encodable_fields.
        rewrite Hnew in *. cbn in *. destruct Henc as (Hfa & Hfr & _).
        repeat split; auto using not_le_zero_gt, not_lt_zero_ge.
        intros Hempty%UTF8Facts.coerceUTF8_empty. contradiction.
      * pose proof (invoke_error_unchanged (CallApplyForLoan loanID name amt term rate) w e) as Hun.
        cbn [invoke outcome fst snd] in Hun. rewrite Hrun in Hun.
        cbn in Hun, Hdoc. rewrite Hun in Hdoc by reflexivity. congruence.
    + rewrite ApproveLoan_run, Hold in Hdoc.
      destruct (_ && _); cbn in Hdoc; congruence.
    + rewrite MakeRepayment_run, Hold in Hdoc.
      destruct (_ <=? _)%float; cbn in Hdoc; congruence.
    + rewrite CheckLoanBalance_run, Hold in Hdoc. cbn in Hdoc. congruence.
Qed.

Lemma reachable_records_checked_witness :
  LoanID (decoded paid_L1) = "L1" /\ "L1" <> "" /\
  ApplicantName (decoded paid_L1) <> "" /\
  (0 <? LoanAmount (decoded paid_L1))%float = true /\
  (0 < TermMonths (decoded paid_L1))%Z /\
  (0 <=? InterestRate (decoded paid_L1))%float = true.
Proof.
  apply (reachable_records_checked (run scenario_paid ∅) "L1" paid_L1);
    [| reflexivity].
  apply history_run; repeat constructor.
Defined.

(** X9.  In every reachable ledger each repayment of a record is above zero
    and the outstanding balance is zero or more. *)
Theorem reachable_amounts_not_negative (w : ledger) (key : string) (doc : json) :
  reachable w -> w !! key = Some doc ->
  Forall (fun r => (0 <? r)%float = true) (Repayments (decoded doc)) /\
  (0 <=? Outstanding (decoded doc))%float = true.
Proof.
  intros Hw. revert key doc.
  apply (history_records (fun _ => True)
           (fun loan => Forall (fun r => (0 <? r)%float = true) (Repayments loan) /\
                        (0 <=? Outstanding loan)%float = true));
    [| | | exact Hw].
  - intros loan _ _ _ _ _ _ Hrep Hout Hamt (Hf & _)%encodable_fields.
    rewrite Hrep, Hout. split; [constructor |].
    apply gt_zero_ge, not_le_zero_gt; assumption.
  - intros _ status loan _ H _ _. exact H.
  - intros _ amount loan _ [Hreps Hout] _ Hamt Hgt Henc.
    destruct (encodable_fields _ Henc) as (_ & _ & Hfo & Hfr).
    destruct (repaid_fields amount loan) as (_ & _ & _ & _ & _ & Ho & Hr & _).
    rewrite Ho in *. rewrite Hr in *. apply Forall_app in Hfr as [_ Hfa].
    apply Forall_inv in Hfa. split.
    + apply Forall_app. split; [exact Hreps |].
      apply Forall_singleton, not_le_zero_gt; assumption.
    + apply sub_not_below_zero; assumption.
Qed.

Lemma reachable_amounts_not_negative_witness :
  Forall (fun r => (0 <? r)%float = true) (Repayments (decoded paid_L1)) /\
  (0 <=? Outstanding (decoded paid_L1))%float = true.
Proof.
  apply (reachable_amounts_not_negative (run scenario_paid ∅) "L1" paid_L1);
    [| reflexivity].
  apply history_run; repeat constructor.
Defined.

(** X10.  In every reachable ledger a record that is APPLIED or REJECTED has
    no repayment and its whole principal outstanding, and a record that is
    PAID has at least one repayment. *)
Theorem reachable_repayments_follow_status (w : ledger) (key : string) (doc : json) :
  reachable w -> w !! key = Some doc ->
  (Status (decoded doc) = "APPLIED" \/ Status (decoded doc) = "REJECTED" ->
   Repayments (decoded doc) = [] /\
   Outstanding (decoded doc) = LoanAmount (decoded doc)) /\
  (Status (decoded doc) = "PAID" -> Repayments (decoded doc) <> []).
Proof.
  intros Hw. revert key doc.
  apply (history_records (fun _ => True)
           (fun loan =>
              (Status loan = "APPLIED" \/ Status loan = "REJECTED" ->
               Repayments loan = [] /\ Outstanding loan = LoanAmount loan) /\
              (Status loan = "PAID" -> Repayments loan <> [])));
    [| | | exact Hw].
  - intros loan _ _ _ _ _ Hst Hrep Hout _ _. split; [auto | congruence].
  - intros _ status loan _ [H _] Hst Hdec. cbn. split; [auto |].
    destruct Hdec; congruence.
  - intros _ amount loan _ _ Hst _ _ _.
    destruct (repaid_fields amount loan) as (_ & _ & _ & _ & _ & _ & Hr & Hs).
    rewrite Hr. split.
    + destruct Hs as [-> | ->]; intros [? | ?]; congruence.
    + intros _. destruct (Repayments loan); discriminate.
Qed.

Lemma reachable_repayments_follow_status_witness :
  (Status (decoded paid_L1) = "APPLIED" \/ Status (decoded paid_L1) = "REJECTED" ->
   Repayments (decoded paid_L1) = [] /\
   Outstanding (decoded paid_L1) = LoanAmount (decoded paid_L1)) /\
  (Status (decoded paid_L1) = "PAID" -> Repayments (decoded paid_L1) <> []).
Proof.
  apply (reachable_repayments_follow_status (run scenario_paid ∅) "L1" paid_L1);
    [| reflexivity].
  apply history_run; repeat constructor.
Defined.

(** The outcome of an invocation depends on its own key only. *)
Lemma invoke_agree (c : call) (w w' : ledger) :
  w !! call_key c = w' !! call_key c ->
  (invoke c w).1 = (invoke c w').1 /\
  (invoke c w).2 !! call_key c = (invoke c w').2 !! call_key c.
Proof.
  intros Hkey.
  destruct c as [loanID name amt term rate | loanID status | loanID amount | loanID];
    cbn [call_key invoke outcome fst snd] in *.
  - rewrite !ApplyForLoan_run.
    repeat (match goal with |- context [if ?b then _ else _] => destruct b end;
            [split; [reflexivity | exact Hkey] |]).
    rewrite <- Hkey. destruct (w !! loanID) eqn:Hw; [split; [reflexivity |]; cbn; congruence |].
    destruct (Marshal _); cbn; rewrite ?lookup_insert_eq; split; congruence.
  - rewrite !ApproveLoan_run. destruct (_ && _); [split; [reflexivity | exact Hkey] |].
    rewrite <- Hkey. destruct (w !! loanID) eqn:Hw; [| split; [reflexivity |]; cbn; congruence].
    destruct (negb _); [split; [reflexivity |]; cbn; congruence |].
    destruct (Marshal _); cbn; rewrite ?lookup_insert_eq; split; congruence.
  - rewrite !MakeRepayment_run. destruct (_ <=? _)%float; [split; [reflexivity | exact Hkey] |].
    rewrite <- Hkey. destruct (w !! loanID) eqn:Hw; [| split; [reflexivity |]; cbn; congruence].
    destruct (negb _); [split; [reflexivity |]; cbn; congruence |].
    destruct (Float64.gtb _ _); [split; [reflexivity |]; cbn; congruence |].
    destruct (Marshal _); cbn; rewrite ?lookup_insert_eq; split; congruence.
  - rewrite !CheckLoanBalance_run. rewrite <- Hkey.
    destruct (w !! loanID) eqn:Hw; cbn; split; congruence.
Qed.

(** X11.  Invocations on different keys are independent: in either order
    they leave the same ledger, and each returns the error, or none, that it
    returns without the other. *)
Theorem different_keys_commute (c1 c2 : call) (w : ledger) :
  call_key c1 <> call_key c2 ->
  (invoke c2 (invoke c1 w).2).2 = (invoke c1 (invoke c2 w).2).2 /\
  (invoke c2 (invoke c1 w).2).1 = (invoke c2 w).1 /\
  (invoke c1 (invoke c2 w).2).1 = (invoke c1 w).1.
Proof.
  intros Hne.
  assert ((invoke c1 w).2 !! call_key c2 = w !! call_key c2) as H12
    by (apply invoke_other_key; congruence).
  assert ((invoke c2 w).2 !! call_key c1 = w !! call_key c1) as H21
    by (apply invoke_other_key; congruence).
  destruct (invoke_agree c2 _ _ H12) as [He2 Hk2].
  destruct (invoke_agree c1 _ _ H21) as [He1 Hk1].
  split; [| split; assumption].
  apply map_eq. intros key.
  destruct (decide (key = call_key c1)) as [-> | Hk1'].
  - rewrite Hk1. apply invoke_other_key. exact Hne.
  - destruct (decide (key = call_key c2)) as [-> | Hk2'].
    + rewrite Hk2. symmetry. apply invoke_other_key. congruence.
    + rewrite !invoke_other_key by assumption. reflexivity.
Qed.

Lemma different_keys_commute_witness :
  (invoke (CallApplyForLoan "L2" "John Doe" 700 6 4)
          (invoke (CallMakeRepayment "L1" 2000) ledger_approved).2).2
  = (invoke (CallMakeRepayment "L1" 2000)
            (invoke (CallApplyForLoan "L2" "John Doe" 700 6 4) ledger_approved).2).2.
Proof.
  apply (different_keys_commute (CallMakeRepayment "L1" 2000)
           (CallApplyForLoan "L2" "John Doe" 700 6 4) ledger_approved).
  discriminate.
Defined.

(** X12.  An APPROVED loan with a balance above zero is settled by repaying
    exactly that balance: [MakeRepayment] accepts the amount, appends it,
    leaves an outstanding balance of zero and sets the status to PAID. *)
Theorem repaying_the_balance_settles (w : ledger) (loanID : string) (doc : json) :
  w !! loanID = Some doc ->
  Status (decoded doc) = "APPROVED" ->
  (0 <? Outstanding (decoded doc))%float = true ->
  exists doc',
    MakeRepayment loanID (Outstanding (decoded doc)) w
      = (Ok tt, <[loanID := doc']> w) /\
    Status (decoded doc') = "PAID" /\
    Outstanding (decoded doc') = 0%float /\
    Repayments (decoded doc')
      = (Repayments (decoded doc) ++ [Outstanding (decoded doc)])%list.
Proof.
  intros Hdoc Hst Hpos.
  destruct (encodable_fields _ (Is_true_true_1 _ (decoded_encodable doc)))
    as (Hfa & Hfr & Hfo & Hfreps).
  assert (repaid (Outstanding (decoded doc)) (decoded doc)
          = set_Status "PAID"
              (set_Repayments (Repayments (decoded doc) ++ [Outstanding (decoded doc)])
                 (set_Outstanding 0%float (decoded doc)))) as Hrepaid.
  { unfold repaid. cbn [Outstanding set_Outstanding set_Repayments Repayments].
    rewrite (sub_diag _ Hfo). reflexivity. }
  rewrite MakeRepayment_run, Hdoc, Hst, (gt_zero_not_le _ Hpos).
  rewrite (le_not_gt _ _ (eqb_leb _ _ (finite_eqb_refl _ Hfo))).
  rewrite String.eqb_refl. cbn [negb]. rewrite Hrepaid.
  destruct (Marshal_encodable
              (set_Status "PAID"
                 (set_Repayments (Repayments (decoded doc) ++ [Outstanding (decoded doc)])
                    (set_Outstanding 0%float (decoded doc))))) as (doc' & -> & Hdoc').
  { apply encodable_intro; cbn; try assumption; [reflexivity |].
    apply Forall_app. split; [exact Hfreps | repeat constructor; exact Hfo]. }
  exists doc'. rewrite Hdoc'. repeat split.
Qed.

Lemma repaying_the_balance_settles_witness :
  exists doc',
    MakeRepayment "L1" 5000 ledger_approved = (Ok tt, <["L1" := doc']> ledger_approved) /\
    Status (decoded doc') = "PAID" /\
    Outstanding (decoded doc') = 0%float /\
    Repayments (decoded doc') = [5000%float].
Proof.
  apply (repaying_the_balance_settles ledger_approved "L1" approved_L1); reflexivity.
Defined.

(** X13.  What a transaction writes, [CheckLoanBalance] reads back: after an
    accepted [ApplyForLoan] it returns the record made of the arguments (the
    two strings as JSON writes them, coerced to valid UTF-8), with status
    APPLIED, the principal outstanding and no repayment; after
    an accepted [ApproveLoan] or [MakeRepayment] it returns the record that
    the key held, with the new status, or with the repayment applied. *)
Theorem CheckLoanBalance_reads_back (w w' : ledger) :
  (forall loanID applicantName loanAmount termMonths interestRate,
     ApplyForLoan loanID applicantName loanAmount termMonths interestRate w
       = (Ok tt, w') ->
     CheckLoanBalance loanID w'
       = (Ok (mkLoan (UTF8.coerceUTF8 loanID) (UTF8.coerceUTF8 applicantName)
                     loanAmount termMonths interestRate loanAmount "APPLIED" []),
          w')) /\
  (forall loanID status,
     ApproveLoan loanID status w = (Ok tt, w') ->
     exists doc,
       w !! loanID = Some doc /\
       CheckLoanBalance loanID w' = (Ok (set_Status status (decoded doc)), w')) /\
  (forall loanID amount,
     MakeRepayment loanID amount w = (Ok tt, w') ->
     exists doc,
       w !! loanID = Some doc /\
       CheckLoanBalance loanID w' = (Ok (repaid amount (decoded doc)), w')).
Proof.
  split; [| split].
  - intros loanID name amt term rate Hrun.
    apply ApplyForLoan_Ok in Hrun as (doc & -> & _ & Hdoc & _).
    rewrite CheckLoanBalance_run, lookup_insert_eq, Hdoc. reflexivity.
  - intros loanID status Hrun.
    apply ApproveLoan_Ok in Hrun as (doc & doc' & Hdoc & -> & _ & _ & Hdoc').
    exists doc. split; [exact Hdoc |].
    rewrite CheckLoanBalance_run, lookup_insert_eq, Hdoc'. reflexivity.
  - intros loanID amount Hrun.
    apply MakeRepayment_Ok in Hrun as (doc & doc' & Hdoc & -> & _ & _ & _ & Hdoc').
    exists doc. split; [exact Hdoc |].
    rewrite CheckLoanBalance_run, lookup_insert_eq, Hdoc'. reflexivity.
Qed.

Lemma CheckLoanBalance_reads_back_witness :
  CheckLoanBalance "loan1" (ApplyForLoan "loan1" "John Doe" 5000 12 5.5 ∅).2
  = (Ok (mkLoan "loan1" "John Doe" 5000 12 5.5 5000 "APPLIED" []),
     (ApplyForLoan "loan1" "John Doe" 5000 12 5.5 ∅).2).
Proof.
  destruct (CheckLoanBalance_reads_back
              ∅ (ApplyForLoan "loan1" "John Doe" 5000 12 5.5 ∅).2) as [H _].
  exact (H "loan1" "John Doe" 5000%float 12 5.5%float eq_refl).
Defined.

(** Of two finite floats, one that is not above the other is at most the
    other. *)
Lemma not_gt_le (x y : float) :
  Float64.finite x = true -> Float64.finite y = true ->
  Float64.gtb x y = false -> PrimFloat.leb x y = true.
Proof.
  intros Hx%is_finite_not_nan Hy%is_finite_not_nan. unfold Float64.gtb.
  rewrite FloatAxioms.leb_spec, FloatAxioms.ltb_spec. unfold SFleb, SFltb.
  rewrite (SFcompare_antisym (Prim2SF x) (Prim2SF y)).
  destruct (SFcompare (Prim2SF x) (Prim2SF y)) as [[| |] |] eqn:Hc; cbn;
    try congruence.
  exfalso. revert Hc.
  destruct (Prim2SF x) as [? | [|] | | [|] ? ?], (Prim2SF y) as [? | [|] | | [|] ? ?];
    cbn; congruence.
Qed.

Lemma evolves_outstanding (old new : Loan) :
  encodable old = true -> evolves old new ->
  (Outstanding new <=? Outstanding old)%float = true.
Proof.
  intros (_ & _ & Hfo & _)%encodable_fields
         [| status _ _ | amount Hst Hamt Hgt Henc].
  - apply eqb_leb, finite_eqb_refl, Hfo.
  - apply eqb_leb, finite_eqb_refl, Hfo.
  - destruct (encodable_fields _ Henc) as (_ & _ & _ & Hfr).
    destruct (repaid_fields amount old) as (_ & _ & _ & _ & _ & Ho & Hr & _).
    rewrite Hr in Hfr. apply Forall_app in Hfr as [_ Hfa]. apply Forall_inv in Hfa.
    rewrite Ho. apply sub_in_range; [exact Hfo | |].
    + apply not_le_zero_gt; assumption.
    + apply not_gt_le; assumption.
Qed.

(** X14.  No invocation raises the outstanding balance of a stored record:
    whatever the invocation, the balance after it is at most the balance
    before it. *)
Theorem outstanding_never_grows (c : call) (w : ledger) (key : string) (doc : json) :
  w !! key = Some doc ->
  exists doc',
    (invoke c w).2 !! key = Some doc' /\
    (Outstanding (decoded doc') <=? Outstanding (decoded doc))%float = true.
Proof.
  intros Hdoc. destruct (invoke_evolves c w key doc Hdoc) as (doc' & Hdoc' & Hstep).
  exists doc'. split; [exact Hdoc' |].
  apply evolves_outstanding; [| exact Hstep].
  apply Is_true_true, decoded_encodable.
Qed.

Lemma outstanding_never_grows_witness :
  exists doc',
    (invoke (CallMakeRepayment "L1" 2000) ledger_approved).2 !! "L1" = Some doc' /\
    (Outstanding (decoded doc') <=? 5000)%float = true.
Proof.
  apply (outstanding_never_grows (CallMakeRepayment "L1" 2000) ledger_approved
           "L1" approved_L1).
  reflexivity.
Defined.

(** X15.  The record that an accepted [ApplyForLoan] stores holds [loanID]
    and [applicantName] as JSON writes them: coerced to valid UTF-8, every
    byte that is not part of a valid encoding replaced by U+FFFD.  The
    stored strings are valid UTF-8, and they are the arguments themselves
    when these are ASCII. *)
Theorem ApplyForLoan_stores_coerced_text (w w' : ledger)
    (loanID applicantName : string) (loanAmount : float) (termMonths : Z)
    (interestRate : float) :
  ApplyForLoan loanID applicantName loanAmount termMonths interestRate w
    = (Ok tt, w') ->
  exists doc,
    w' !! loanID = Some doc /\
    LoanID (decoded doc) = UTF8.coerceUTF8 loanID /\
    ApplicantName (decoded doc) = UTF8.coerceUTF8 applicantName /\
    UTF8.coerceUTF8 (LoanID (decoded doc)) = LoanID (decoded doc) /\
    UTF8.coerceUTF8 (ApplicantName (decoded doc)) = ApplicantName (decoded doc) /\
    (Forall (fun c => (N_of_ascii c < 0x80)%N) (list_ascii_of_string loanID) ->
     LoanID (decoded doc) = loanID) /\
    (Forall (fun c => (N_of_ascii c < 0x80)%N) (list_ascii_of_string applicantName) ->
     ApplicantName (decoded doc) = applicantName).
Proof.
  intros Hrun. apply ApplyForLoan_Ok in Hrun as (doc & -> & _ & Hdoc & _).
  exists doc. rewrite lookup_insert_eq.
  destruct (decoded_valid doc) as (Hid & Hname & _).
  split; [reflexivity |]. rewrite Hdoc in *. cbn in *.
  repeat split; auto using UTF8Facts.coerceUTF8_ascii.
Qed.

Lemma ApplyForLoan_stores_coerced_text_witness :
  exists doc,
    (ApplyForLoan key_FF "Jane Doe" 5000 12 5.5 ∅).2 !! key_FF = Some doc /\
    LoanID (decoded doc)
      = String (ascii_of_N 0xEF) (String (ascii_of_N 0xBF) (String (ascii_of_N 0xBD) "L1")) /\
    LoanID (decoded doc) <> key_FF /\
    ApplicantName (decoded doc) = "Jane Doe".
Proof.
  destruct (ApplyForLoan_stores_coerced_text
              ∅ (ApplyForLoan key_FF "Jane Doe" 5000 12 5.5 ∅).2
              key_FF "Jane Doe" 5000 12 5.5)
    as (doc & Hdoc & Hid & Hname & _); [reflexivity |].
  exists doc. rewrite Hid, Hname. repeat split; [exact Hdoc | discriminate].
Defined.
